(** * docker-credential-helpers: the GitHub Actions OIDC credential helper

    A shallow embedding of [githubactionsoidc/githubactionsoidc.go] and
    the properties of its four operations ([Add], [Delete], [Get],
    [List]).

    Go strings are byte sequences; they are modelled by [string] (a list
    of 8-bit [ascii]).  The process environment, the log file, the clock
    and the HTTP transport are the fields of a [World] that the
    operations thread through a small state monad. *)

From Stdlib Require Import Ascii NArith ZArith Bool List Lia.
From Stdlib Require String.
From stdpp Require Import base option list gmap strings pretty.

Local Open Scope N_scope.

(** ** Bytes *)

Module Bytes.

Definition code (c : ascii) : N := N_of_ascii c.
Definition byte (n : N) : ascii := ascii_of_N n.

(** [a <= c && c <= b] on bytes. *)
Definition between (a b : N) (c : ascii) : bool :=
  (a <=? code c) && (code c <=? b).

Definition LF : string := String (byte 10) "".

(** [s[n:]] for [n <= len(s)]. *)
Fixpoint drop (n : nat) (s : string) : string :=
  match n, s with
  | O, _ => s
  | S n', String _ s' => drop n' s'
  | S _, EmptyString => EmptyString
  end.

(** [s[:n]] for [n <= len(s)]. *)
Fixpoint take (n : nat) (s : string) : string :=
  match n, s with
  | O, _ => EmptyString
  | S n', String c s' => String c (take n' s')
  | S _, EmptyString => EmptyString
  end.

(** [s[i]], with the zero byte standing for an index out of range (no
    caller below indexes out of range). *)
Definition index (s : string) (i : N) : ascii :=
  match String.get (N.to_nat i) s with
  | Some c => c
  | None => byte 0
  end.

Fixpoint has_prefix (s p : string) {struct p} : bool :=
  match p, s with
  | EmptyString, _ => true
  | String a p', String b s' => Ascii.eqb a b && has_prefix s' p'
  | String _ _, EmptyString => false
  end.

End Bytes.

Import Bytes.

(** ** [strings.Contains] *)

(** [strings.Contains(s, substr)]: [substr] occurs somewhere in [s]. *)
Fixpoint strings_Contains (s substr : string) : bool :=
  has_prefix s substr ||
  match s with
  | EmptyString => false
  | String _ s' => strings_Contains s' substr
  end.

(** The byte [c] occurs in [s]. *)
Fixpoint occurs (c : ascii) (s : string) : Prop :=
  match s with
  | EmptyString => False
  | String d s' => c = d \/ occurs c s'
  end.

(** ** [net/url]: [QueryEscape] *)

Module url.

Definition upperhex : string := "0123456789ABCDEF".

(** [shouldEscape(c, encodeQueryComponent)]: letters, digits and the
    four marks [- _ . ~] pass; the reserved bytes [$&+,/:;=?@] are
    escaped in a query component, and so is everything else. *)
Definition shouldEscape (c : ascii) : bool :=
  if between 0x61 0x7A c || between 0x41 0x5A c || between 0x30 0x39 c
  then false
  else if (code c =? 0x2D) || (code c =? 0x5F) || (code c =? 0x2E)
          || (code c =? 0x7E)
  then false
  else true.

(** One step of the second loop of [escape(s, encodeQueryComponent)]. *)
Definition escape_byte (c : ascii) : string :=
  if code c =? 0x20 then "+"
  else if shouldEscape c then
    String "%" (String (index upperhex (N.shiftr (code c) 4))
               (String (index upperhex (N.land (code c) 15)) ""))
  else String c "".

(** [url.QueryEscape(s)].  (The first loop of [escape] only counts the
    bytes to escape, to return [s] itself when there are none.) *)
Fixpoint QueryEscape (s : string) : string :=
  match s with
  | EmptyString => EmptyString
  | String c s' => escape_byte c +:+ QueryEscape s'
  end.

End url.

(** ** [unicode/utf8] and [unicode/utf16]

    Runes are code points in [N]; the only negative rune of the code
    below, the [-1] of [getu4], is an [option]. *)

Module utf8.

Definition RuneError : N := 0xFFFD.
Definition MaxRune : N := 0x10FFFF.

(** The [first] table with [acceptRanges]: for a leading byte, the
    width of the sequence and the range allowed for its second byte. *)
Definition first (p0 : N) : option (nat * N * N) :=
  if (0xC2 <=? p0) && (p0 <=? 0xDF) then Some (2%nat, 0x80, 0xBF)
  else if p0 =? 0xE0 then Some (3%nat, 0xA0, 0xBF)
  else if (0xE1 <=? p0) && (p0 <=? 0xEC) then Some (3%nat, 0x80, 0xBF)
  else if p0 =? 0xED then Some (3%nat, 0x80, 0x9F)
  else if (0xEE <=? p0) && (p0 <=? 0xEF) then Some (3%nat, 0x80, 0xBF)
  else if p0 =? 0xF0 then Some (4%nat, 0x90, 0xBF)
  else if (0xF1 <=? p0) && (p0 <=? 0xF3) then Some (4%nat, 0x80, 0xBF)
  else if p0 =? 0xF4 then Some (4%nat, 0x80, 0x8F)
  else None.

(** A continuation byte, [locb <= b <= hicb]. *)
Definition cont (b : ascii) : bool := between 0x80 0xBF b.

(** The rune of a two-, three- and four-byte sequence. *)
Definition rune2 (p0 b1 : ascii) : N :=
  N.lor (N.shiftl (N.land (code p0) 0x1F) 6) (N.land (code b1) 0x3F).

Definition rune3 (p0 b1 b2 : ascii) : N :=
  N.lor (N.lor (N.shiftl (N.land (code p0) 0x0F) 12)
               (N.shiftl (N.land (code b1) 0x3F) 6))
        (N.land (code b2) 0x3F).

Definition rune4 (p0 b1 b2 b3 : ascii) : N :=
  N.lor (N.lor (N.lor (N.shiftl (N.land (code p0) 0x07) 18)
                      (N.shiftl (N.land (code b1) 0x3F) 12))
               (N.shiftl (N.land (code b2) 0x3F) 6))
        (N.land (code b3) 0x3F).

(** [DecodeRune(p)]: the first rune of [p] and its width; an invalid
    encoding gives [(RuneError, 1)], the empty input [(RuneError, 0)]. *)
Definition DecodeRune (p : string) : N * nat :=
  match p with
  | EmptyString => (RuneError, 0%nat)
  | String p0 p1 =>
    if code p0 <? 0x80 then (code p0, 1%nat)
    else
      match first (code p0) with
      | None => (RuneError, 1%nat)
      | Some (sz, lo, hi) =>
        match p1 with
        | EmptyString => (RuneError, 1%nat)
        | String b1 p2 =>
          if negb (between lo hi b1) then (RuneError, 1%nat)
          else if (sz <=? 2)%nat then (rune2 p0 b1, 2%nat)
          else
            match p2 with
            | EmptyString => (RuneError, 1%nat)
            | String b2 p3 =>
              if negb (cont b2) then (RuneError, 1%nat)
              else if (sz <=? 3)%nat then (rune3 p0 b1 b2, 3%nat)
              else
                match p3 with
                | EmptyString => (RuneError, 1%nat)
                | String b3 _ =>
                  if negb (cont b3) then (RuneError, 1%nat)
                  else (rune4 p0 b1 b2 b3, 4%nat)
                end
            end
        end
      end
  end.

(** [ValidString(s)]: [s] is a sequence of well-formed encodings. *)
Fixpoint ValidString (s : string) : bool :=
  match s with
  | EmptyString => true
  | String p0 s1 =>
    if code p0 <? 0x80 then ValidString s1
    else
      match first (code p0) with
      | None => false
      | Some (sz, lo, hi) =>
        match s1 with
        | EmptyString => false
        | String b1 s2 =>
          between lo hi b1 &&
          (if (sz <=? 2)%nat then ValidString s2
           else
             match s2 with
             | EmptyString => false
             | String b2 s3 =>
               cont b2 &&
               (if (sz <=? 3)%nat then ValidString s3
                else
                  match s3 with
                  | EmptyString => false
                  | String b3 s4 => cont b3 && ValidString s4
                  end)
             end)
        end
      end
  end.

(** [byte(x)]: the low eight bits. *)
Definition low8 (x : N) : N := N.land x 0xFF.

Definition encode3 (r : N) : string :=
  String (byte (N.lor 0xE0 (low8 (N.shiftr r 12))))
 (String (byte (N.lor 0x80 (N.land (low8 (N.shiftr r 6)) 0x3F)))
 (String (byte (N.lor 0x80 (N.land (low8 r) 0x3F))) "")).

(** [AppendRune(nil, r)], the bytes [EncodeRune] writes. *)
Definition EncodeRune (r : N) : string :=
  if r <=? 0x7F then String (byte r) ""
  else if r <=? 0x7FF then
    String (byte (N.lor 0xC0 (low8 (N.shiftr r 6))))
   (String (byte (N.lor 0x80 (N.land (low8 r) 0x3F))) "")
  else if (MaxRune <? r) || ((0xD800 <=? r) && (r <=? 0xDFFF)) then
    encode3 RuneError
  else if r <=? 0xFFFF then encode3 r
  else
    String (byte (N.lor 0xF0 (low8 (N.shiftr r 18))))
   (String (byte (N.lor 0x80 (N.land (low8 (N.shiftr r 12)) 0x3F)))
   (String (byte (N.lor 0x80 (N.land (low8 (N.shiftr r 6)) 0x3F)))
   (String (byte (N.lor 0x80 (N.land (low8 r) 0x3F))) ""))).

End utf8.

Module utf16.

Definition replacementChar : N := 0xFFFD.

(** [IsSurrogate(r)]: [surr1 <= r && r < surr3]. *)
Definition IsSurrogate (r : N) : bool := (0xD800 <=? r) && (r <? 0xE000).

(** [DecodeRune(r1, r2)], with [None] for the [-1] that [getu4] gives
    when no second escape follows. *)
Definition DecodeRune (r1 : N) (r2 : option N) : N :=
  match r2 with
  | Some r2 =>
    if (0xD800 <=? r1) && (r1 <? 0xDC00) && (0xDC00 <=? r2) && (r2 <? 0xE000)
    then N.lor (N.shiftl (r1 - 0xD800) 10) (r2 - 0xDC00) + 0x10000
    else replacementChar
  | None => replacementChar
  end.

End utf16.

(** ** [encoding/json]: the scanner and [unquote]

    [Decoder.Decode] first runs the scanner over the bytes of one JSON
    value ([readValue]) and then walks those bytes again to store them
    ([decodeState.unmarshal]).  The embedding does both passes at once
    and keeps the value as a tree: [value] fails exactly where the
    scanner does, and the strings it returns are the ones [unquote]
    computes. *)

Module json.

#[warnings="-register-all"] Inductive t : Type :=
| Null
| Bool (b : bool)
| Number (literal : string)
| Str (s : string)
| Array (elems : list t)
| Object (members : list (string * t)).

(** The outcome of scanning a prefix of the input. *)
Inductive scan (A : Type) : Type :=
| Scanned (a : A) (rest : string)
| Invalid      (* [scanError]: a byte that cannot continue the value *)
| Short        (* the bytes ended before the value did *)
| Exhausted.   (* recursion budget used up; see [first_value_fuel] *)
Arguments Scanned {A} a rest.
Arguments Invalid {A}.
Arguments Short {A}.
Arguments Exhausted {A}.

Definition and_then {A B} (x : scan A) (k : A -> string -> scan B) : scan B :=
  match x with
  | Scanned a rest => k a rest
  | Invalid => Invalid
  | Short => Short
  | Exhausted => Exhausted
  end.

Definition maxNestingDepth : N := 10000.

Definition isSpace (c : ascii) : bool :=
  (code c =? 0x20) || (code c =? 0x09) || (code c =? 0x0D) || (code c =? 0x0A).

Definition isDigit (c : ascii) : bool := between 0x30 0x39 c.

Fixpoint skip_space (s : string) : string :=
  match s with
  | EmptyString => EmptyString
  | String c s' => if isSpace c then skip_space s' else s
  end.

(** The rest of a literal ([rue], [alse], [ull]) after its first byte. *)
Fixpoint expect (lit s : string) : scan unit :=
  match lit with
  | EmptyString => Scanned tt s
  | String c lit' =>
    match s with
    | EmptyString => Short
    | String d s' => if Ascii.eqb c d then expect lit' s' else Invalid
    end
  end.

(** *** Numbers: the scanner states [stateNeg] to [stateE0] *)

Fixpoint digits (s : string) : string :=
  match s with
  | EmptyString => EmptyString
  | String c s' => if isDigit c then digits s' else s
  end.

Definition stateESign (s : string) : scan unit :=
  match s with
  | EmptyString => Short
  | String c s' => if isDigit c then Scanned tt (digits s') else Invalid
  end.

Definition stateE (s : string) : scan unit :=
  match s with
  | EmptyString => Short
  | String c s' =>
    if (code c =? 0x2B) || (code c =? 0x2D) then stateESign s' else stateESign s
  end.

(** [stateDot0] after the digits of the fraction. *)
Definition stateDot0 (s : string) : scan unit :=
  match s with
  | String c s' =>
    if (code c =? 0x65) || (code c =? 0x45) then stateE s' else Scanned tt s
  | EmptyString => Scanned tt s
  end.

Definition stateDot (s : string) : scan unit :=
  match s with
  | EmptyString => Short
  | String c s' => if isDigit c then stateDot0 (digits s') else Invalid
  end.

(** [state0]: after the integer part. *)
Definition state0 (s : string) : scan unit :=
  match s with
  | String c s' =>
    if code c =? 0x2E then stateDot s'
    else if (code c =? 0x65) || (code c =? 0x45) then stateE s'
    else Scanned tt s
  | EmptyString => Scanned tt s
  end.

(** [stateNeg]: the integer part, after the optional minus sign. *)
Definition stateNeg (s : string) : scan unit :=
  match s with
  | EmptyString => Short
  | String c s' =>
    if code c =? 0x30 then state0 s'
    else if between 0x31 0x39 c then state0 (digits s')
    else Invalid
  end.

Definition number (s : string) : scan unit :=
  match s with
  | String c s' => if code c =? 0x2D then stateNeg s' else stateNeg s
  | EmptyString => Short
  end.

(** *** Strings: [stateInString] and [unquote] *)

Definition unhex (c : ascii) : option N :=
  if between 0x30 0x39 c then Some (code c - 0x30)
  else if between 0x61 0x66 c then Some (code c - 0x61 + 10)
  else if between 0x41 0x46 c then Some (code c - 0x41 + 10)
  else None.

(** [n] hexadecimal digits, most significant first. *)
Fixpoint hexdigits (n : nat) (acc : N) (s : string) : scan N :=
  match n with
  | O => Scanned acc s
  | S n' =>
    match s with
    | EmptyString => Short
    | String c s' =>
      match unhex c with
      | Some d => hexdigits n' (acc * 16 + d) s'
      | None => Invalid
      end
    end
  end.

(** [getu4(s)]: the rune of a [\uXXXX] at the start of [s], if any. *)
Definition getu4 (s : string) : option N :=
  match s with
  | String c0 (String c1 s') =>
    if (code c0 =? 0x5C) && (code c1 =? 0x75) then
      match hexdigits 4 0 s' with
      | Scanned r _ => Some r
      | _ => None
      end
    else None
  | _ => None
  end.

(** What the next piece of a string literal is. *)
Inductive piece : Type :=
| Bytes (out : string) (rest : string)   (* decoded bytes to append *)
| Quote (rest : string)                  (* the closing quote *)
| BadByte
| Cut.

(** A [\uXXXX] escape, after the [\u]. *)
Definition unicode_escape (s : string) : piece :=
  match hexdigits 4 0 s with
  | Scanned rr s' =>
    if utf16.IsSurrogate rr then
      let dec := utf16.DecodeRune rr (getu4 s') in
      if negb (dec =? utf16.replacementChar)
      then Bytes (utf8.EncodeRune dec) (drop 6 s')
      else Bytes (utf8.EncodeRune utf16.replacementChar) s'
    else Bytes (utf8.EncodeRune rr) s'
  | Short => Cut
  | _ => BadByte
  end.

(** The byte after a backslash. *)
Definition escape (s : string) : piece :=
  match s with
  | EmptyString => Cut
  | String e s' =>
    if (code e =? 0x22) || (code e =? 0x5C) || (code e =? 0x2F)
    then Bytes (String e "") s'
    else if code e =? 0x62 then Bytes (String (byte 0x08) "") s'
    else if code e =? 0x66 then Bytes (String (byte 0x0C) "") s'
    else if code e =? 0x6E then Bytes (String (byte 0x0A) "") s'
    else if code e =? 0x72 then Bytes (String (byte 0x0D) "") s'
    else if code e =? 0x74 then Bytes (String (byte 0x09) "") s'
    else if code e =? 0x75 then unicode_escape s'
    else BadByte
  end.

Definition string_step (s : string) : piece :=
  match s with
  | EmptyString => Cut
  | String c s' =>
    if code c =? 0x22 then Quote s'
    else if code c =? 0x5C then escape s'
    else if code c <? 0x20 then BadByte
    else if code c <? 0x80 then Bytes (String c "") s'
    else
      let '(rr, size) := utf8.DecodeRune s in
      Bytes (utf8.EncodeRune rr) (drop size s)
  end.

(** A string literal after its opening quote: its unquoted bytes. *)
Fixpoint string_body (fuel : nat) (s : string) : scan string :=
  match fuel with
  | O => Exhausted
  | S fuel' =>
    match string_step s with
    | Quote rest => Scanned "" rest
    | Bytes out rest =>
      and_then (string_body fuel' rest) (fun t r => Scanned (out +:+ t) r)
    | BadByte => Invalid
    | Cut => Short
    end
  end.

(** *** Values *)

(** The literal text of a number: what was consumed of [s]. *)
Definition consumed (s rest : string) : string :=
  take (String.length s - String.length rest) s.

Fixpoint value (fuel : nat) (depth : N) (s : string) {struct fuel} : scan t :=
  match fuel with
  | O => Exhausted
  | S fuel' =>
    match skip_space s with
    | EmptyString => Short
    | String c s1 =>
      if code c =? 0x7B then                                   (* { *)
        if depth <? maxNestingDepth then
          match skip_space s1 with
          | EmptyString => Short
          | String c1 s2 =>
            if code c1 =? 0x7D then Scanned (Object []) s2
            else and_then (members fuel' (depth + 1) s1)
                          (fun ms r => Scanned (Object ms) r)
          end
        else Invalid
      else if code c =? 0x5B then                              (* [ *)
        if depth <? maxNestingDepth then
          match skip_space s1 with
          | EmptyString => Short
          | String c1 s2 =>
            if code c1 =? 0x5D then Scanned (Array []) s2
            else and_then (elements fuel' (depth + 1) s1)
                          (fun vs r => Scanned (Array vs) r)
          end
        else Invalid
      else if code c =? 0x22 then
        and_then (string_body fuel' s1) (fun x r => Scanned (Str x) r)
      else if code c =? 0x74 then
        and_then (expect "rue" s1) (fun _ r => Scanned (Bool true) r)
      else if code c =? 0x66 then
        and_then (expect "alse" s1) (fun _ r => Scanned (Bool false) r)
      else if code c =? 0x6E then
        and_then (expect "ull" s1) (fun _ r => Scanned Null r)
      else if (code c =? 0x2D) || isDigit c then
        and_then (number (String c s1))
                 (fun _ r => Scanned (Number (consumed (String c s1) r)) r)
      else Invalid
    end
  end

(** The members of an object, from a key to the closing brace. *)
with members (fuel : nat) (depth : N) (s : string) {struct fuel}
  : scan (list (string * t)) :=
  match fuel with
  | O => Exhausted
  | S fuel' =>
    match skip_space s with
    | EmptyString => Short
    | String c s1 =>
      if code c =? 0x22 then
        and_then (string_body fuel' s1) (fun key s2 =>
        match skip_space s2 with
        | EmptyString => Short
        | String c2 s3 =>
          if code c2 =? 0x3A then
            and_then (value fuel' depth s3) (fun v s4 =>
            match skip_space s4 with
            | EmptyString => Short
            | String c4 s5 =>
              if code c4 =? 0x2C then
                and_then (members fuel' depth s5)
                         (fun ms r => Scanned ((key, v) :: ms) r)
              else if code c4 =? 0x7D then Scanned [(key, v)] s5
              else Invalid
            end)
          else Invalid
        end)
      else Invalid
    end
  end

(** The elements of an array, from a value to the closing bracket. *)
with elements (fuel : nat) (depth : N) (s : string) {struct fuel}
  : scan (list t) :=
  match fuel with
  | O => Exhausted
  | S fuel' =>
    and_then (value fuel' depth s) (fun v s1 =>
    match skip_space s1 with
    | EmptyString => Short
    | String c s2 =>
      if code c =? 0x2C then
        and_then (elements fuel' depth s2) (fun vs r => Scanned (v :: vs) r)
      else if code c =? 0x5D then Scanned [v] s2
      else Invalid
    end)
  end.

(** The first value of [s], as [readValue] delimits it: the recursion
    budget is two steps for each byte and is never used up (see
    [first_value_fuel]). *)
Definition first_value (s : string) : scan t :=
  value (S (2 * String.length s)) 0 s.

End json.

(** ** Errors *)

(** Modelled from the spec: the [credentials] package of the repository
    (its [Credentials] struct and its error kinds) is not among the
    sources.  The spec names one error kind that the helper surfaces,
    CredentialsNotFound; the test file builds [Credentials] values with
    the three fields below and recognises the error kind with
    [IsErrCredentialsNotFound].  The package's two other kinds are kept
    so that returning one of them would be a different result. *)
Record Credentials := {
  ServerURL : string;
  Username : string;
  Secret : string;
}.

(** Modelled from the spec: the error kinds of the [credentials]
    package, which is not among the sources, are the first three
    constructors; CredentialsNotFound is the one the specification
    names.  The other constructors are the errors the standard library
    hands to the helper.  The interface value [nil] is [None] of
    [option error]. *)
Inductive error : Type :=
| errCredentialsNotFound
| errCredentialsMissingServerURL
| errCredentialsMissingUsername
| os_ErrInvalid                        (* a method called on a nil *os.File *)
| os_PathError (msg : string)          (* a failed write *)
| url_Error (msg : string)             (* url.Parse inside http.NewRequest *)
| net_Error (msg : string)             (* the client's Do, a failed body read *)
| io_EOF
| io_ErrUnexpectedEOF
| json_SyntaxError
| json_UnmarshalTypeError (Value : string).

(** Modelled from the spec: [credentials.NewErrCredentialsNotFound()],
    not among the sources, makes the CredentialsNotFound error. *)
Definition NewErrCredentialsNotFound : error := errCredentialsNotFound.

(** Modelled from the spec: [credentials.IsErrCredentialsNotFound(err)],
    not among the sources, recognises that kind; the tests call it on
    what [Get] returns. *)
Definition IsErrCredentialsNotFound (err : option error) : bool :=
  match err with
  | Some errCredentialsNotFound => true
  | _ => false
  end.

(** [err.Error()], as [%v] prints it.  For a syntax error the Go text
    also names the offending byte, which the embedding does not keep. *)
Definition Error (e : error) : string :=
  match e with
  | errCredentialsNotFound => "credentials not found in native keychain"
  | errCredentialsMissingServerURL => "no credentials server URL"
  | errCredentialsMissingUsername => "no credentials username"
  | os_ErrInvalid => "invalid argument"
  | os_PathError msg => msg
  | url_Error msg => msg
  | net_Error msg => msg
  | io_EOF => "EOF"
  | io_ErrUnexpectedEOF => "unexpected EOF"
  | json_SyntaxError => "invalid character"
  | json_UnmarshalTypeError v =>
      "json: cannot unmarshal " +:+ v +:+ " into Go value"
  end.

(** ** [encoding/json]: decoding into the response struct *)

(** [var respBody struct { Value string `json:"value"` }] *)
Record respBody := { Value : string }.

(** [foldName] on ASCII: lower-case letters to upper case.  (Go folds
    the other runes too, but none of them folds to a letter of
    [VALUE], so a key with a byte outside ASCII never matches.) *)
Definition fold_byte (c : ascii) : ascii :=
  if between 0x61 0x7A c then byte (code c - 0x20) else c.

Fixpoint foldName (s : string) : string :=
  match s with
  | EmptyString => EmptyString
  | String c s' => String (fold_byte c) (foldName s')
  end.

(** The field a key selects: [byExactName], then [byFoldedName]. *)
Definition is_value_key (key : string) : bool :=
  String.eqb key "value" || String.eqb (foldName key) (foldName "value").

(** [d.saveError]: only the first error is kept. *)
Definition saveError (saved : option error) (e : error) : option error :=
  match saved with
  | None => Some e
  | Some _ => saved
  end.

(** [d.value] at the field [Value], of kind string. *)
Definition store_Value (v : json.t) (st : respBody * option error)
  : respBody * option error :=
  match v with
  | json.Str x => ({| Value := x |}, snd st)
  | json.Null => st
  | json.Bool _ => (fst st, saveError (snd st) (json_UnmarshalTypeError "bool"))
  | json.Number _ =>
      (fst st, saveError (snd st) (json_UnmarshalTypeError "number"))
  | json.Array _ =>
      (fst st, saveError (snd st) (json_UnmarshalTypeError "array"))
  | json.Object _ =>
      (fst st, saveError (snd st) (json_UnmarshalTypeError "object"))
  end.

(** [d.object] on the struct: members are stored in order, unknown keys
    are skipped. *)
Fixpoint object (ms : list (string * json.t)) (st : respBody * option error)
  : respBody * option error :=
  match ms with
  | [] => st
  | (key, v) :: ms' =>
      object ms' (if is_value_key key then store_Value v st else st)
  end.

(** [d.unmarshal(&respBody)]: the struct after the walk and
    [d.savedError]. *)
Definition unmarshal (j : json.t) (v : respBody) : respBody * option error :=
  match j with
  | json.Object ms => object ms (v, None)
  | json.Null => (v, None)
  | json.Bool _ => (v, Some (json_UnmarshalTypeError "bool"))
  | json.Number _ => (v, Some (json_UnmarshalTypeError "number"))
  | json.Str _ => (v, Some (json_UnmarshalTypeError "string"))
  | json.Array _ => (v, Some (json_UnmarshalTypeError "array"))
  end.

(** [nonSpace(b)] *)
Fixpoint nonSpace (b : string) : bool :=
  match b with
  | EmptyString => false
  | String c b' => negb (json.isSpace c) || nonSpace b'
  end.

(** A response body, [io.ReadCloser]: reading it gives [data] and then
    the end of the stream, [io.EOF] when [fault] is [None] and the
    error [fault] otherwise (a connection that broke). *)
Record ReadCloser := { data : string; fault : option error }.

(** An object or an array is complete at its closing byte; any other
    value is complete at the byte that follows it, or at [io.EOF]. *)
Definition self_delimited (j : json.t) : bool :=
  match j with
  | json.Object _ | json.Array _ => true
  | _ => false
  end.

(** [json.NewDecoder(body).Decode(&v)] on a fresh decoder: [readValue]
    finds the bytes of the first value, [unmarshal] stores them.  What
    follows the first value is not looked at. *)
Definition Decode (body : ReadCloser) (v : respBody) : respBody * option error :=
  match json.first_value (data body) with
  | json.Scanned j rest =>
      match rest, self_delimited j, fault body with
      | EmptyString, false, Some e => (v, Some e)
      | _, _, _ => unmarshal j v
      end
  | json.Short =>
      match fault body with
      | Some e => (v, Some e)
      | None =>
          (v, Some (if nonSpace (data body) then io_ErrUnexpectedEOF else io_EOF))
      end
  | json.Invalid | json.Exhausted => (v, Some json_SyntaxError)
  end.

(** ** The world outside the helper *)

(** [http.Request]; [URL] keeps the string the request was made from. *)
Record Request := {
  Method : string;
  URL : string;
  Header : gmap string (list string);
}.

(** [req.Header.Set(key, value)], for a key in canonical form. *)
Definition Header_Set (req : Request) (key value : string) : Request :=
  {| Method := Method req; URL := URL req;
     Header := <[key := [value]]> (Header req) |}.

Record Response := {
  StatusCode : Z;
  Body : ReadCloser;
}.

Definition StatusOK : Z := 200.

(** What the helper did to the network. *)
Inductive event : Type :=
| RoundTrip (req : Request) (res : Response + error)
| BodyRead (body : ReadCloser)
| BodyClose (body : ReadCloser).

Record World := {
  (** the process environment *)
  environ : gmap string string;
  (** [time.Now().UTC().Format(time.RFC3339)] at its n-th call *)
  clock : nat -> string;
  ticks : nat;
  (** the open files by descriptor, and whether the n-th write fails *)
  disk : gmap nat string;
  write_fails : nat -> bool;
  writes : nat;
  (** the answer of the network to a request, given what went before *)
  transport : list event -> Request -> Response + error;
  trace : list event;
}.

(** The log sink of a world: everything [WriteString] reads or writes. *)
Record Sink := {
  sink_clock : nat -> string;
  sink_ticks : nat;
  sink_disk : gmap nat string;
  sink_write_fails : nat -> bool;
  sink_writes : nat;
}.

Definition with_sink (k : Sink) (w : World) : World :=
  {| environ := environ w;
     clock := sink_clock k; ticks := sink_ticks k;
     disk := sink_disk k; write_fails := sink_write_fails k;
     writes := sink_writes k;
     transport := transport w; trace := trace w |}.

(** A state monad over the world. *)
Definition M (A : Type) : Type := World -> A * World.

#[global] Instance M_ret : MRet M := fun A a w => (a, w).
#[global] Instance M_bind : MBind M :=
  fun A B f m w => let '(a, w') := m w in f a w'.

(** [defer d; body] *)
Definition defer {A} (d : M unit) (body : M A) : M A :=
  a ← body; _ ← d; mret a.

Definition Now_RFC3339 : M string := fun w =>
  (clock w (ticks w),
   {| environ := environ w; clock := clock w; ticks := S (ticks w);
      disk := disk w; write_fails := write_fails w; writes := writes w;
      transport := transport w; trace := trace w |}).

(** [os.Getenv(key)]: the empty string when the variable is unset. *)
Definition os_Getenv (key : string) : M string := fun w =>
  (default "" (environ w !! key), w).

(** [f.WriteString(s)] on a [*os.File]: a nil file and a descriptor
    that is not open give an error and write nothing; on an open file
    the write either fails or appends [s]. *)
Definition WriteString (f : option nat) (s : string) : M (Z * option error) :=
  fun w =>
  match f with
  | None => ((0%Z, Some os_ErrInvalid), w)
  | Some fd =>
    match disk w !! fd with
    | None => ((0%Z, Some (os_PathError "file already closed")), w)
    | Some old =>
      let failed := write_fails w (writes w) in
      ((if failed then (0%Z, Some (os_PathError "write failed"))
        else (Z.of_nat (String.length s), None)),
       {| environ := environ w; clock := clock w; ticks := ticks w;
          disk := if failed then disk w else <[fd := old +:+ s]> (disk w);
          write_fails := write_fails w; writes := S (writes w);
          transport := transport w; trace := trace w |})
    end
  end.

Definition record (e : event) : M unit := fun w =>
  (tt,
   {| environ := environ w; clock := clock w; ticks := ticks w;
      disk := disk w; write_fails := write_fails w; writes := writes w;
      transport := transport w; trace := trace w ++ [e] |}).

(** [http.DefaultClient.Do(req)] *)
Definition Client_Do (req : Request) : M (Response + error) := fun w =>
  let res := transport w (trace w) req in
  (res, snd (record (RoundTrip req res) w)).

(** [resp.Body.Close()] *)
Definition Body_Close (body : ReadCloser) : M unit := record (BodyClose body).

(** [json.NewDecoder(body).Decode(&v)] *)
Definition Decoder_Decode (body : ReadCloser) (v : respBody)
  : M (respBody * option error) :=
  _ ← record (BodyRead body); mret (Decode body v).

(** ** The helper *)

Section Helper.

(** [url.Parse], which decides whether [http.NewRequest] fails: the
    error for a string that is not a URL, [None] otherwise. *)
Variable url_Parse : string -> option error.

(** [http.NewRequest(method, url, nil)] for a valid method. *)
Definition http_NewRequest (method url : string) : Request + error :=
  match url_Parse url with
  | Some err => inr err
  | None => inl {| Method := method; URL := url; Header := ∅ |}
  end.

Record GitHubActionsOidc := { LogFile : option nat }.

(** [creds] is the struct behind the pointer the host passes. *)
Definition Add (gh : GitHubActionsOidc) (creds : Credentials)
  : M (option error) :=
  now ← Now_RFC3339;
  _ ← WriteString (LogFile gh)
        (now +:+ ": Adding credentials for server: " +:+ ServerURL creds +:+ LF);
  mret None.

Definition Delete (gh : GitHubActionsOidc) (serverURL : string)
  : M (option error) :=
  now ← Now_RFC3339;
  _ ← WriteString (LogFile gh)
        (now +:+ ": Deleting credentials for server: " +:+ serverURL +:+ LF);
  mret None.

Definition Get (gh : GitHubActionsOidc) (serverURL : string)
  : M (string * string * option error) :=
  now ← Now_RFC3339;
  _ ← WriteString (LogFile gh)
        (now +:+ ": Getting OIDC token: " +:+ serverURL +:+ LF);
  oidcRequestURL ← os_Getenv "ACTIONS_ID_TOKEN_REQUEST_URL";
  oidcRequestToken ← os_Getenv "ACTIONS_ID_TOKEN_REQUEST_TOKEN";
  if String.eqb oidcRequestURL "" || String.eqb oidcRequestToken "" then
    now ← Now_RFC3339;
    _ ← WriteString (LogFile gh)
          (now +:+ ": Missing OIDC request URL or token" +:+ LF);
    mret ("", "", Some NewErrCredentialsNotFound)
  else
    oidcAudience ← os_Getenv "ACTIONS_ID_TOKEN_REQUEST_AUDIENCE";
    oidcRequestURL ←
      (if negb (String.eqb oidcAudience "") then
         let separator :=
           if strings_Contains oidcRequestURL "?" then "&" else "?" in
         let oidcRequestURL :=
           oidcRequestURL +:+ separator +:+ "audience="
             +:+ url.QueryEscape oidcAudience in
         now ← Now_RFC3339;
         _ ← WriteString (LogFile gh)
               (now +:+ ": Added OIDC audience to request URL: "
                  +:+ oidcRequestURL +:+ LF);
         mret oidcRequestURL
       else mret oidcRequestURL);
    match http_NewRequest "GET" oidcRequestURL with
    | inr err =>
      now ← Now_RFC3339;
      _ ← WriteString (LogFile gh)
            (now +:+ ": Failed to create HTTP request: " +:+ Error err +:+ LF);
      mret ("", "", Some NewErrCredentialsNotFound)
    | inl req =>
      let req := Header_Set req "Authorization" ("Bearer " +:+ oidcRequestToken) in
      let req := Header_Set req "User-Agent"
                   "Docker-Credential-Helper-GitHubActionsOIDC" in
      res ← Client_Do req;
      match res with
      | inr err =>
        now ← Now_RFC3339;
        _ ← WriteString (LogFile gh)
              (now +:+ ": Failed to send HTTP request: " +:+ Error err +:+ LF);
        mret ("", "", Some NewErrCredentialsNotFound)
      | inl resp =>
        defer (Body_Close (Body resp))
          (if negb (StatusCode resp =? StatusOK)%Z then
             now ← Now_RFC3339;
             _ ← WriteString (LogFile gh)
                   (now +:+ ": Received non-OK HTTP status: "
                      +:+ pretty (StatusCode resp) +:+ LF);
             mret ("", "", Some NewErrCredentialsNotFound)
           else
             '(respBody, err) ← Decoder_Decode (Body resp) {| Value := "" |};
             match err with
             | Some err =>
               now ← Now_RFC3339;
               _ ← WriteString (LogFile gh)
                     (now +:+ ": Failed to decode HTTP response: "
                        +:+ Error err +:+ LF);
               mret ("", "", Some NewErrCredentialsNotFound)
             | None =>
               now ← Now_RFC3339;
               _ ← WriteString (LogFile gh)
                     (now +:+ ": Successfully retrieved OIDC token: "
                        +:+ Value respBody +:+ LF);
               mret ("github_actions", Value respBody, None)
             end)
      end
    end.

(** [List] returns the nil map, [None], and a nil error. *)
Definition List (gh : GitHubActionsOidc)
  : M (option (gmap string string) * option error) :=
  now ← Now_RFC3339;
  _ ← WriteString (LogFile gh) (now +:+ ": Listing credentials" +:+ LF);
  mret (None, None).

End Helper.

(** ** The outcomes of a fetch, in the words of the specification *)

Definition getenv (w : World) (key : string) : string :=
  default "" (environ w !! key).

(** The world with [es] appended to its trace. *)
Definition extend (es : list event) (w : World) : World :=
  {| environ := environ w; clock := clock w; ticks := ticks w;
     disk := disk w; write_fails := write_fails w; writes := writes w;
     transport := transport w; trace := trace w ++ es |}.

Definition sink_of (w : World) : Sink :=
  {| sink_clock := clock w; sink_ticks := ticks w; sink_disk := disk w;
     sink_write_fails := write_fails w; sink_writes := writes w |}.

(** The ways a fetch can end: the five failures of the error taxonomy
    and the success. *)
Inductive outcome : Type :=
| MissingEnvironment
| RequestConstructionFailure (err : error)
| NetworkFailure (req : Request) (err : error)
| NonOKStatus (req : Request) (resp : Response)
| DecodeFailure (req : Request) (resp : Response) (err : error)
| Fetched (req : Request) (resp : Response) (token : string).

Definition returned (o : outcome) : string * string * option error :=
  match o with
  | Fetched _ _ token => ("github_actions", token, None)
  | _ => ("", "", Some errCredentialsNotFound)
  end.

Definition events (o : outcome) : list event :=
  match o with
  | MissingEnvironment | RequestConstructionFailure _ => []
  | NetworkFailure req err => [RoundTrip req (inr err)]
  | NonOKStatus req resp => [RoundTrip req (inl resp); BodyClose (Body resp)]
  | DecodeFailure req resp _ | Fetched req resp _ =>
      [RoundTrip req (inl resp); BodyRead (Body resp); BodyClose (Body resp)]
  end.

Section Fetch.

Variable url_Parse : string -> option error.

(** The URL of the token request: the endpoint, with the audience as a
    query parameter when one is set. *)
Definition endpoint_URL (w : World) : string :=
  let base := getenv w "ACTIONS_ID_TOKEN_REQUEST_URL" in
  let audience := getenv w "ACTIONS_ID_TOKEN_REQUEST_AUDIENCE" in
  if String.eqb audience "" then base
  else base +:+ (if strings_Contains base "?" then "&" else "?")
         +:+ "audience=" +:+ url.QueryEscape audience.

Definition token_request (w : World) : Request :=
  {| Method := "GET"; URL := endpoint_URL w;
     Header :=
       <["User-Agent" := ["Docker-Credential-Helper-GitHubActionsOIDC"]]>
         (<["Authorization" :=
              ["Bearer " +:+ getenv w "ACTIONS_ID_TOKEN_REQUEST_TOKEN"]]> ∅) |}.

(** The precondition chain of the fetch, step by step. *)
Definition fetch (w : World) : outcome :=
  if String.eqb (getenv w "ACTIONS_ID_TOKEN_REQUEST_URL") ""
     || String.eqb (getenv w "ACTIONS_ID_TOKEN_REQUEST_TOKEN") ""
  then MissingEnvironment
  else
    match url_Parse (endpoint_URL w) with
    | Some err => RequestConstructionFailure err
    | None =>
      let req := token_request w in
      match transport w (trace w) req with
      | inr err => NetworkFailure req err
      | inl resp =>
        if (StatusCode resp =? StatusOK)%Z then
          match Decode (Body resp) {| Value := "" |} with
          | (_, Some err) => DecodeFailure req resp err
          | (v, None) => Fetched req resp (Value v)
          end
        else NonOKStatus req resp
      end
    end.

End Fetch.

(** [Get] in [w] made the exchange [req]/[res] and left the world [w']. *)
Definition exchanged (w w' : World) (req : Request) (res : Response + error)
  : Prop :=
  exists later, trace w' = trace w ++ RoundTrip req res :: later.

(** ** JSON text, as a server writes it *)

Module Text.

Definition dq : string := String (byte 0x22) "".
Definition backslash : string := String (byte 0x5C) "".

(** A byte of a string inside a JSON string literal: the quote and the
    backslash take a backslash, a control byte becomes a [\u00XX]
    escape, every other byte is written as it is. *)
Definition quote_byte (c : ascii) : string :=
  if code c =? 0x22 then backslash +:+ dq
  else if code c =? 0x5C then backslash +:+ backslash
  else if code c <? 0x20 then
    backslash +:+ "u00"
      +:+ String (index url.upperhex (N.shiftr (code c) 4))
            (String (index url.upperhex (N.land (code c) 15)) "")
  else String c "".

Fixpoint quoted (s : string) : string :=
  match s with
  | EmptyString => EmptyString
  | String c s' => quote_byte c +:+ quoted s'
  end.

(** A byte that is written as it is and stands for itself: printable
    ASCII other than the quote and the backslash. *)
Definition plain_byte (c : ascii) : bool :=
  (0x20 <=? code c) && (code c <? 0x80)
  && negb (code c =? 0x22) && negb (code c =? 0x5C).

Fixpoint plain (s : string) : bool :=
  match s with
  | EmptyString => true
  | String c s' => plain_byte c && plain s'
  end.

(** The JSON string literal that denotes [s]. *)
Definition literal (s : string) : string := dq +:+ quoted s +:+ dq.

Fixpoint spaces (ws : string) : bool :=
  match ws with
  | EmptyString => true
  | String c ws' => json.isSpace c && spaces ws'
  end.

(** The object with the single member [value], laid out with the white
    space [ws1] to [ws4]. *)
Definition token_object (ws1 ws2 ws3 ws4 T : string) : string :=
  "{" +:+ ws1 +:+ literal "value" +:+ ws2 +:+ ":" +:+ ws3 +:+ literal T
      +:+ ws4 +:+ "}".

(** The body of the specification, with one space after the colon. *)
Definition token_response (T : string) : string := token_object "" "" " " "" T.

End Text.

(** A value that [Value] can hold: a string, or [null] which leaves it
    as it is. *)
Definition storable (v : json.t) : bool :=
  match v with
  | json.Str _ | json.Null => true
  | _ => false
  end.

(** The JSON values the decoder refuses for the response struct: a
    top-level array, string, number or boolean, and an object in which
    some member named [value], in any letter case, holds a number, a
    boolean, an array or an object. *)
Definition refused (j : json.t) : bool :=
  match j with
  | json.Object ms =>
      existsb (fun m => is_value_key (fst m) && negb (storable (snd m))) ms
  | json.Null => false
  | _ => true
  end.

(** The object has exactly one member, named [value], that is a string:
    the single-field schema of the specification. *)
Definition single_field (j : json.t) : bool :=
  match j with
  | json.Object [(key, json.Str _)] => String.eqb key "value"
  | _ => false
  end.

(** All 256 bytes. *)
Definition all_bytes : list ascii :=
  Eval vm_compute in map (fun n => byte (N.of_nat n)) (seq 0 256).

(** The 64 continuation bytes. *)
Definition cont_bytes : list ascii :=
  Eval vm_compute in List.filter utf8.cont all_bytes.

(** For every two-byte (three-byte, four-byte) sequence that
    [DecodeRune] accepts, with bytes taken from [all] and continuation
    bytes from [conts], [EncodeRune] of its rune is the sequence. *)
Definition check2 (all : list ascii) : bool :=
  forallb (fun p0 =>
    match utf8.first (code p0) with
    | Some (sz, lo, hi) =>
      if (sz <=? 2)%nat then
        forallb (fun b1 =>
          implb (between lo hi b1)
            (String.eqb (utf8.EncodeRune (utf8.rune2 p0 b1))
                        (String p0 (String b1 "")))) all
      else true
    | None => true
    end) all.

Definition check3 (all conts : list ascii) : bool :=
  forallb (fun p0 =>
    match utf8.first (code p0) with
    | Some (sz, lo, hi) =>
      if (sz <=? 2)%nat then true
      else if (sz <=? 3)%nat then
        forallb (fun b1 =>
          if between lo hi b1 then
            forallb (fun b2 =>
              String.eqb (utf8.EncodeRune (utf8.rune3 p0 b1 b2))
                         (String p0 (String b1 (String b2 "")))) conts
          else true) all
      else true
    | None => true
    end) all.

Definition check4 (all conts : list ascii) : bool :=
  forallb (fun p0 =>
    match utf8.first (code p0) with
    | Some (sz, lo, hi) =>
      if (sz <=? 3)%nat then true
      else
        forallb (fun b1 =>
          if between lo hi b1 then
            forallb (fun b2 =>
              forallb (fun b3 =>
                String.eqb (utf8.EncodeRune (utf8.rune4 p0 b1 b2 b3))
                   (String p0 (String b1 (String b2 (String b3 "")))))
                conts) conts
          else true) all
    | None => true
    end) all.

(** A scan that stayed within its recursion budget and, when it
    succeeded, consumed at least one byte of [s]. *)
Definition within_budget {A} (x : json.scan A) (s : string) : Prop :=
  x <> json.Exhausted
  /\ forall a r, x = json.Scanned a r -> (String.length r < String.length s)%nat.

(** [len(m)] of a Go map, the nil map being [None]. *)
Definition len (m : option (gmap string string)) : nat :=
  match m with
  | None => 0%nat
  | Some m => size m
  end.

(** A required variable is missing: unset, or set to nothing. *)
Definition unset_or_empty (w : World) (key : string) : Prop :=
  environ w !! key = None \/ environ w !! key = Some "".

(** The endpoint answers a request the same way whatever went before. *)
Definition deterministic (w : World) : Prop :=
  forall h h' req, transport w h req = transport w h' req.

(** ** Concrete runs, in the manner of the test file *)

Module Scenario.

(** One rule of [url.Parse]: a control byte makes the URL invalid. *)
Fixpoint stringContainsCTLByte (s : string) : bool :=
  match s with
  | EmptyString => false
  | String c s' =>
      (code c <? 0x20) || (code c =? 0x7F) || stringContainsCTLByte s'
  end.

Definition url_Parse (u : string) : option error :=
  if stringContainsCTLByte u
  then Some (url_Error "net/url: invalid control character in URL")
  else None.

Definition timestamp (n : nat) : string :=
  "2024-05-01T10:00:0" +:+ pretty n +:+ "Z".

(** A response that arrives whole. *)
Definition response (status : Z) (body : string) : Response :=
  {| StatusCode := status; Body := {| data := body; fault := None |} |}.

Definition reply (status : Z) (body : string) : Response + error :=
  inl (response status body).

(** The mock server of the tests: it checks the bearer token and then
    answers with [status] and [body]. *)
Definition server (status : Z) (body : string) (req : Request)
  : Response + error :=
  match Header req !! "Authorization" with
  | Some ["Bearer test-token"] => reply status body
  | _ => reply 401 "Invalid authorization"
  end.

(** A world with an open log file at descriptor 3. *)
Definition world (env : gmap string string)
    (answer : Request -> Response + error) : World :=
  {| environ := env; clock := timestamp; ticks := 0;
     disk := {[ 3%nat := "" ]}; write_fails := fun _ => false; writes := 0;
     transport := fun _ => answer; trace := [] |}.

Definition env_plain : gmap string string :=
  {[ "ACTIONS_ID_TOKEN_REQUEST_URL" := "https://example.com/token";
     "ACTIONS_ID_TOKEN_REQUEST_TOKEN" := "test-token" ]}.


Definition env_query_audience : gmap string string :=
  {[ "ACTIONS_ID_TOKEN_REQUEST_URL" := "https://example.com/token?api-version=2.0";
     "ACTIONS_ID_TOKEN_REQUEST_TOKEN" := "test-token";
     "ACTIONS_ID_TOKEN_REQUEST_AUDIENCE" := "https://registry.example.com" ]}.

Definition env_no_token : gmap string string :=
  {[ "ACTIONS_ID_TOKEN_REQUEST_URL" := "https://example.com/token" ]}.

Definition helper : GitHubActionsOidc := {| LogFile := Some 3%nat |}.
Definition helper_without_log : GitHubActionsOidc := {| LogFile := None |}.

(** A sink whose file is closed and whose writes would all fail. *)
Definition broken_sink : Sink :=
  {| sink_clock := fun _ => ""; sink_ticks := 7; sink_disk := ∅;
     sink_write_fails := fun _ => true; sink_writes := 0 |}.

Definition token : string := "eyJhbGciOiJSUzI1NiIsInR5cCI6IkpXVCJ9.test.token".

Definition registry : string := "https://registry.example.com".

(** The endpoint answers 200 with the token. *)
Definition world_token : World :=
  world env_plain (server 200 (Text.token_response token)).


Definition world_query_audience : World :=
  world env_query_audience (server 200 (Text.token_response token)).

(** The endpoint answers 200 with an object that has no member. *)
Definition world_empty_object : World := world env_plain (server 200 "{}").

(** The endpoint answers 200 with a number where the token should be. *)
Definition world_number : World :=
  world env_plain (server 200 ("{" +:+ Text.literal "value" +:+ ": 123}")).

(** The endpoint answers 401. *)
Definition world_unauthorized : World :=
  world env_plain (fun _ => reply 401 "Unauthorized").

(** The request token is not set. *)
Definition world_no_token : World :=
  world env_no_token (server 200 (Text.token_response token)).

Definition creds : Credentials :=
  {| ServerURL := "https://registry.example.com";
     Username := "testuser"; Secret := "testpassword" |}.

End Scenario.

(** ** [net/url]: [QueryUnescape]

    The inverse of [QueryEscape], which the receiving side applies to
    the query (the mock server of the tests reads the audience with
    [r.URL.Query().Get]). *)

Module unescape.


(** [unhex(c)] *)
Definition unhex (c : ascii) : N :=
  if between 0x30 0x39 c then code c - 0x30
  else if between 0x61 0x66 c then code c - 0x61 + 10
  else if between 0x41 0x46 c then code c - 0x41 + 10
  else 0.


End unescape.

(** The bytes a query component is made of once escaped: letters,
    digits, the marks [- _ . ~], and the [%] and [+] of the escapes. *)
Definition query_safe (c : ascii) : bool :=
  between 0x61 0x7A c || between 0x41 0x5A c || between 0x30 0x39 c
  || (code c =? 0x2D) || (code c =? 0x5F) || (code c =? 0x2E)
  || (code c =? 0x7E) || (code c =? 0x25) || (code c =? 0x2B).

(** [p] holds of every byte of [s]. *)
Fixpoint every (p : ascii -> bool) (s : string) : bool :=
  match s with
  | EmptyString => true
  | String c s' => p c && every p s'
  end.

(** ** Network events, counted *)





(** ** What the decoder keeps of an object *)

(** The string that the last member named [value] (in any letter case)
    with a string gives; [None] when no such member holds a string. *)
Fixpoint chosen (ms : list (string * json.t)) : option string :=
  match ms with
  | [] => None
  | (key, v) :: ms' =>
    match chosen ms' with
    | Some x => Some x
    | None =>
      if is_value_key key then
        match v with
        | json.Str x => Some x
        | _ => None
        end
      else None
    end
  end.

(** A value that is complete before the bytes [rest]: a number is
    complete only at a byte that cannot continue it. *)
Definition delimited (j : json.t) (rest : string) : Prop :=
  match j with
  | json.Number _ => rest <> ""
  | _ => True
  end.

(** [p] holds of every number below [2 ^ k]. *)
Fixpoint forall_bits (k : nat) (p : N -> bool) : bool :=
  match k with
  | O => p 0
  | S k' =>
      forall_bits k' (fun n => p (2 * n)) && forall_bits k' (fun n => p (2 * n + 1))
  end.

(** The first two bytes [EncodeRune] writes for a rune of four bytes
    whose bits above the twelfth are [h] begin a well-formed encoding. *)
Definition lead4 (h : N) : bool :=
  let b0 := byte (N.lor 0xF0 (utf8.low8 (N.shiftr h 6))) in
  let b1 := byte (N.lor 0x80 (N.land (utf8.low8 h) 0x3F)) in
  negb (code b0 <? 0x80) &&
  match utf8.first (code b0) with
  | Some (4%nat, lo, hi) => between lo hi b1
  | _ => false
  end.

(** ** The log file *)

(** The helper's log file is open at descriptor [fd], holds [old], and
    no write fails. *)
Definition working (gh : GitHubActionsOidc) (w : World) (fd : nat)
    (old : string) : Prop :=
  LogFile gh = Some fd /\ disk w !! fd = Some old
  /\ forall n, write_fails w n = false.

(** The world after one more clock reading and one more write, of
    [text], at the end of the file [fd]. *)
Definition written (fd : nat) (text : string) (w : World) : World :=
  {| environ := environ w; clock := clock w; ticks := S (ticks w);
     disk := <[fd := default "" (disk w !! fd) +:+ text]> (disk w);
     write_fails := write_fails w; writes := S (writes w);
     transport := transport w; trace := trace w |}.

(** Log lines [<timestamp>: <message>\n], stamped with the clock
    readings from [tick] on. *)
Fixpoint stamped (clock : nat -> string) (tick : nat) (messages : list string)
  : string :=
  match messages with
  | [] => ""
  | m :: ms => clock tick +:+ ": " +:+ m +:+ LF +:+ stamped clock (S tick) ms
  end.


Section Messages.

Variable url_Parse : string -> option error.


End Messages.

(** The files of [w'] are those of [w], the log file of [gh] possibly
    longer at its end, every other file as it was. *)
Definition only_appended (gh : GitHubActionsOidc) (w w' : World) : Prop :=
  forall fd,
    disk w' !! fd = disk w !! fd
    \/ (LogFile gh = Some fd
        /\ exists old more,
             disk w !! fd = Some old /\ disk w' !! fd = Some (old +:+ more)).

(** Every run of [m] takes a world to one related to it by [R]. *)
Definition preserves {A} (R : World -> World -> Prop) (m : M A) : Prop :=
  forall w, R w (snd (m w)).

(** ** More concrete runs: the failures on the way to the endpoint *)

Module Cases.

(** The endpoint URL ends in a line feed, which [url.Parse] refuses. *)
Definition env_bad_URL : gmap string string :=
  {[ "ACTIONS_ID_TOKEN_REQUEST_URL" := "https://example.com/token" +:+ LF;
     "ACTIONS_ID_TOKEN_REQUEST_TOKEN" := "test-token" ]}.

Definition world_bad_URL : World :=
  Scenario.world env_bad_URL
    (Scenario.server 200 (Text.token_response Scenario.token)).

(** Nothing listens at the endpoint. *)
Definition connection_refused : error :=
  net_Error "dial tcp 127.0.0.1:1: connect: connection refused".

Definition world_unreachable : World :=
  Scenario.world Scenario.env_plain (fun _ => inr connection_refused).

(** The endpoint answers 200 with a body that is not JSON. *)
Definition world_not_json : World :=
  Scenario.world Scenario.env_plain (Scenario.server 200 "invalid json").

(** The endpoint answers 200 with two members named [value]. *)
Definition two_values : string :=
  "{" +:+ Text.literal "value" +:+ ":" +:+ Text.literal "first" +:+ ","
      +:+ Text.literal "VALUE" +:+ ":" +:+ Text.literal "second" +:+ "}".

Definition world_two_values : World :=
  Scenario.world Scenario.env_plain (Scenario.server 200 two_values).

(** The endpoint answers 200 with the token and more bytes after it. *)
Definition trailing : string := LF +:+ "-- end of response --".

Definition world_trailing : World :=
  Scenario.world Scenario.env_plain
    (Scenario.server 200 (Text.token_response Scenario.token +:+ trailing)).

End Cases.

(** * Properties *)

(** ** Byte strings *)

Lemma code_lt_256 c : code c < 256.
Proof. apply N_ascii_bounded. Qed.

Lemma byte_code c : byte (code c) = c.
Proof. apply ascii_N_embedding. Qed.

Lemma append_cons c s t : String c s +:+ t = String c (s +:+ t).
Proof. reflexivity. Qed.

Lemma append_nil_l s : "" +:+ s = s.
Proof. reflexivity. Qed.

Lemma take_drop n s : take n s +:+ drop n s = s.
Proof.
  revert s; induction n as [|n IH]; intros [|c s]; try reflexivity.
  cbn [take drop]. now rewrite append_cons, IH.
Qed.

Lemma append_nil_r s : s +:+ "" = s.
Proof.
  induction s as [|c s IH]; [reflexivity | now rewrite append_cons, IH].
Qed.

Lemma append_assoc s t u : (s +:+ t) +:+ u = s +:+ (t +:+ u).
Proof.
  induction s as [|c s IH]; [reflexivity | now rewrite !append_cons, IH].
Qed.

Lemma length_append s t :
  String.length (s +:+ t) = (String.length s + String.length t)%nat.
Proof.
  induction s as [|c s IH]; [reflexivity |].
  rewrite append_cons. cbn [String.length]. now rewrite IH.
Qed.

(** ** Exhaustive checks over bytes *)

Lemma all_bytes_complete c : In c all_bytes.
Proof.
  assert (existsb (Ascii.eqb c) all_bytes = true) as H.
  { destruct c as [[] [] [] [] [] [] [] []]; vm_compute; reflexivity. }
  apply existsb_exists in H as (x & Hx & E).
  apply Ascii.eqb_eq in E. now subst.
Qed.

Lemma forall_bytes (P : ascii -> bool) :
  forallb P all_bytes = true -> forall c, P c = true.
Proof.
  intros H c. rewrite forallb_forall in H. apply H, all_bytes_complete.
Qed.

Lemma cont_bytes_complete b : utf8.cont b = true -> In b cont_bytes.
Proof.
  intros H.
  assert (implb (utf8.cont b) (existsb (Ascii.eqb b) cont_bytes) = true) as A.
  { clear H. destruct b as [[] [] [] [] [] [] [] []]; vm_compute; reflexivity. }
  rewrite H in A. cbn [implb] in A.
  apply existsb_exists in A as (x & Hx & E).
  apply Ascii.eqb_eq in E. now subst.
Qed.

(** ** UTF-8: encoding a decoded rune gives the bytes back *)

Lemma check2_holds : check2 all_bytes = true.
Proof. vm_cast_no_check (eq_refl true). Qed.

Lemma check3_holds : check3 all_bytes cont_bytes = true.
Proof. vm_cast_no_check (eq_refl true). Qed.

Lemma check4_holds : check4 all_bytes cont_bytes = true.
Proof. vm_cast_no_check (eq_refl true). Qed.

Lemma check2_sound all p0 b1 sz lo hi :
  check2 all = true -> In p0 all -> In b1 all ->
  utf8.first (code p0) = Some (sz, lo, hi) -> (sz <=? 2)%nat = true ->
  between lo hi b1 = true ->
  utf8.EncodeRune (utf8.rune2 p0 b1) = String p0 (String b1 "").
Proof.
  unfold check2. intros H I0 I1 F S2 B1.
  rewrite forallb_forall in H. specialize (H p0 I0). cbv beta in H.
  rewrite F, S2, forallb_forall in H. specialize (H b1 I1). cbv beta in H.
  rewrite B1 in H. now apply String.eqb_eq.
Qed.

Lemma check3_sound all conts p0 b1 b2 sz lo hi :
  check3 all conts = true -> In p0 all -> In b1 all -> In b2 conts ->
  utf8.first (code p0) = Some (sz, lo, hi) ->
  (sz <=? 2)%nat = false -> (sz <=? 3)%nat = true ->
  between lo hi b1 = true ->
  utf8.EncodeRune (utf8.rune3 p0 b1 b2) = String p0 (String b1 (String b2 "")).
Proof.
  unfold check3. intros H I0 I1 I2 F S2 S3 B1.
  rewrite forallb_forall in H. specialize (H p0 I0). cbv beta in H.
  rewrite F, S2, S3, forallb_forall in H. specialize (H b1 I1). cbv beta in H.
  rewrite B1, forallb_forall in H. now apply String.eqb_eq, H.
Qed.

Lemma check4_sound all conts p0 b1 b2 b3 sz lo hi :
  check4 all conts = true ->
  In p0 all -> In b1 all -> In b2 conts -> In b3 conts ->
  utf8.first (code p0) = Some (sz, lo, hi) -> (sz <=? 3)%nat = false ->
  between lo hi b1 = true ->
  utf8.EncodeRune (utf8.rune4 p0 b1 b2 b3)
  = String p0 (String b1 (String b2 (String b3 ""))).
Proof.
  unfold check4. intros H I0 I1 I2 I3 F S3 B1.
  rewrite forallb_forall in H. specialize (H p0 I0). cbv beta in H.
  rewrite F, S3, forallb_forall in H. specialize (H b1 I1). cbv beta in H.
  rewrite B1, forallb_forall in H. specialize (H b2 I2). cbv beta in H.
  rewrite forallb_forall in H. now apply String.eqb_eq, H.
Qed.

Lemma encode_rune2 p0 b1 sz lo hi :
  utf8.first (code p0) = Some (sz, lo, hi) -> (sz <=? 2)%nat = true ->
  between lo hi b1 = true ->
  utf8.EncodeRune (utf8.rune2 p0 b1) = String p0 (String b1 "").
Proof.
  exact (check2_sound all_bytes p0 b1 sz lo hi check2_holds
           (all_bytes_complete p0) (all_bytes_complete b1)).
Qed.

Lemma encode_rune3 p0 b1 b2 sz lo hi :
  utf8.first (code p0) = Some (sz, lo, hi) ->
  (sz <=? 2)%nat = false -> (sz <=? 3)%nat = true ->
  between lo hi b1 = true -> utf8.cont b2 = true ->
  utf8.EncodeRune (utf8.rune3 p0 b1 b2) = String p0 (String b1 (String b2 "")).
Proof.
  intros F S2 S3 B1 B2.
  exact (check3_sound all_bytes cont_bytes p0 b1 b2 sz lo hi check3_holds
           (all_bytes_complete p0) (all_bytes_complete b1)
           (cont_bytes_complete b2 B2) F S2 S3 B1).
Qed.

Lemma encode_rune4 p0 b1 b2 b3 sz lo hi :
  utf8.first (code p0) = Some (sz, lo, hi) -> (sz <=? 3)%nat = false ->
  between lo hi b1 = true -> utf8.cont b2 = true -> utf8.cont b3 = true ->
  utf8.EncodeRune (utf8.rune4 p0 b1 b2 b3)
  = String p0 (String b1 (String b2 (String b3 ""))).
Proof.
  intros F S3 B1 B2 B3.
  exact (check4_sound all_bytes cont_bytes p0 b1 b2 b3 sz lo hi check4_holds
           (all_bytes_complete p0) (all_bytes_complete b1)
           (cont_bytes_complete b2 B2) (cont_bytes_complete b3 B3) F S3 B1).
Qed.

(** ** Reading a quoted string back *)

(** The leading bytes of multi-byte sequences and their second bytes are
    not ASCII. *)
Lemma first_range n sz lo hi :
  utf8.first n = Some (sz, lo, hi) -> 0xC2 <= n /\ 0x80 <= lo.
Proof.
  unfold utf8.first.
  repeat match goal with
         | |- context [if ?b then _ else _] => destruct b eqn:?
         end; intros [= <- <- <-];
  repeat match goal with
         | H : _ && _ = true |- _ => apply andb_true_iff in H as [? ?]
         | H : (_ <=? _) = true |- _ => apply N.leb_le in H
         | H : (_ =? _) = true |- _ => apply N.eqb_eq in H
         end; lia.
Qed.

Lemma quote_byte_high c : 0x80 <= code c -> Text.quote_byte c = String c "".
Proof.
  intros H. unfold Text.quote_byte.
  destruct (code c =? 0x22) eqn:E1; [apply N.eqb_eq in E1; lia|].
  destruct (code c =? 0x5C) eqn:E2; [apply N.eqb_eq in E2; lia|].
  destruct (code c <? 0x20) eqn:E3; [apply N.ltb_lt in E3; lia|].
  reflexivity.
Qed.

Lemma between_ge lo hi b : between lo hi b = true -> lo <= code b.
Proof. unfold between. rewrite andb_true_iff, N.leb_le. tauto. Qed.

(** A byte below 0x80, written by [quote_byte], is read back by one
    step of the scanner. *)
Lemma string_step_ascii c rest :
  (code c <? 0x80) = true ->
  json.string_step (Text.quote_byte c +:+ rest) = json.Bytes (String c "") rest.
Proof.
  destruct c as [[] [] [] [] [] [] [] []]; intros H;
    try discriminate H; reflexivity.
Qed.

Lemma string_step_high p0 rest :
  0x80 <= code p0 ->
  json.string_step (String p0 rest)
  = let '(rr, size) := utf8.DecodeRune (String p0 rest) in
    json.Bytes (utf8.EncodeRune rr) (drop size (String p0 rest)).
Proof.
  intros H. unfold json.string_step.
  destruct (code p0 =? 0x22) eqn:E1; [apply N.eqb_eq in E1; lia|].
  destruct (code p0 =? 0x5C) eqn:E2; [apply N.eqb_eq in E2; lia|].
  destruct (code p0 <? 0x20) eqn:E3; [apply N.ltb_lt in E3; lia|].
  destruct (code p0 <? 0x80) eqn:E4; [apply N.ltb_lt in E4; lia|].
  reflexivity.
Qed.

Lemma quote_byte_length c : (1 <= String.length (Text.quote_byte c))%nat.
Proof.
  unfold Text.quote_byte.
  repeat match goal with
         | |- context [if ?b then _ else _] => destruct b
         end;
    unfold Text.backslash, Text.dq; rewrite ?length_append;
    cbn [String.length]; lia.
Qed.

Lemma string_step_rune2 p0 b1 rest sz lo hi :
  utf8.first (code p0) = Some (sz, lo, hi) -> (sz <=? 2)%nat = true ->
  between lo hi b1 = true ->
  json.string_step (String p0 (String b1 rest))
  = json.Bytes (String p0 (String b1 "")) rest.
Proof.
  intros F S2 B1. pose proof (first_range _ _ _ _ F) as [R _].
  rewrite string_step_high by lia. unfold utf8.DecodeRune.
  destruct (code p0 <? 0x80) eqn:E; [apply N.ltb_lt in E; lia|].
  rewrite F, B1, S2. cbn [negb drop].
  now rewrite (encode_rune2 _ _ _ _ _ F S2 B1).
Qed.

Lemma string_step_rune3 p0 b1 b2 rest sz lo hi :
  utf8.first (code p0) = Some (sz, lo, hi) ->
  (sz <=? 2)%nat = false -> (sz <=? 3)%nat = true ->
  between lo hi b1 = true -> utf8.cont b2 = true ->
  json.string_step (String p0 (String b1 (String b2 rest)))
  = json.Bytes (String p0 (String b1 (String b2 ""))) rest.
Proof.
  intros F S2 S3 B1 B2. pose proof (first_range _ _ _ _ F) as [R _].
  rewrite string_step_high by lia. unfold utf8.DecodeRune.
  destruct (code p0 <? 0x80) eqn:E; [apply N.ltb_lt in E; lia|].
  rewrite F, B1, S2, B2, S3. cbn [negb drop].
  now rewrite (encode_rune3 _ _ _ _ _ _ F S2 S3 B1 B2).
Qed.

Lemma string_step_rune4 p0 b1 b2 b3 rest sz lo hi :
  utf8.first (code p0) = Some (sz, lo, hi) ->
  (sz <=? 2)%nat = false -> (sz <=? 3)%nat = false ->
  between lo hi b1 = true -> utf8.cont b2 = true -> utf8.cont b3 = true ->
  json.string_step (String p0 (String b1 (String b2 (String b3 rest))))
  = json.Bytes (String p0 (String b1 (String b2 (String b3 "")))) rest.
Proof.
  intros F S2 S3 B1 B2 B3. pose proof (first_range _ _ _ _ F) as [R _].
  rewrite string_step_high by lia. unfold utf8.DecodeRune.
  destruct (code p0 <? 0x80) eqn:E; [apply N.ltb_lt in E; lia|].
  rewrite F, B1, S2, B2, S3, B3. cbn [negb drop].
  now rewrite (encode_rune4 _ _ _ _ _ _ _ F S3 B1 B2 B3).
Qed.

Lemma quoted_cons c s : Text.quoted (String c s) = Text.quote_byte c +:+ Text.quoted s.
Proof. reflexivity. Qed.

Lemma quoted_high c s :
  0x80 <= code c -> Text.quoted (String c s) = String c (Text.quoted s).
Proof. intros H. now rewrite quoted_cons, quote_byte_high. Qed.

Lemma cont_ge b : utf8.cont b = true -> 0x80 <= code b.
Proof. apply between_ge. Qed.

(** The scanner reads a quoted string back: the bytes between the
    quotes of [literal T] unquote to [T] when [T] is valid UTF-8. *)
Lemma string_body_quoted T : forall rest fuel,
  utf8.ValidString T = true ->
  (String.length (Text.quoted T) < fuel)%nat ->
  json.string_body fuel (Text.quoted T +:+ Text.dq +:+ rest)
  = json.Scanned T rest.
Proof.
  remember (String.length T) as n eqn:Hn. revert T Hn.
  induction n as [n IH] using lt_wf_ind.
  intros T Hn rest [|fuel] V L; [lia|].
  destruct T as [|p0 T1].
  { reflexivity. }
  cbn [utf8.ValidString] in V. cbn [String.length] in Hn.
  destruct (code p0 <? 0x80) eqn:E0.
  { rewrite quoted_cons, append_assoc. cbn [json.string_body].
    rewrite string_step_ascii by assumption.
    rewrite quoted_cons, length_append in L.
    pose proof (quote_byte_length p0).
    rewrite (IH (String.length T1)); [reflexivity | lia | reflexivity | assumption | lia]. }
  destruct (utf8.first (code p0)) as [[[sz lo] hi]|] eqn:F; [|discriminate].
  pose proof (first_range _ _ _ _ F) as [R0 Rlo].
  destruct T1 as [|b1 T2]; [discriminate|].
  apply andb_true_iff in V as [B1 V].
  pose proof (between_ge _ _ _ B1) as R1.
  rewrite quoted_high in * by lia. rewrite quoted_high in * by lia.
  cbn [String.length] in Hn, L.
  destruct (sz <=? 2)%nat eqn:S2.
  { rewrite !append_cons. cbn [json.string_body].
    rewrite (string_step_rune2 _ _ _ _ _ _ F S2 B1).
    rewrite (IH (String.length T2)); [reflexivity | lia | reflexivity | assumption | lia]. }
  destruct T2 as [|b2 T3]; [discriminate|].
  apply andb_true_iff in V as [B2 V].
  pose proof (cont_ge _ B2) as R2.
  rewrite quoted_high in * by lia.
  cbn [String.length] in Hn, L.
  destruct (sz <=? 3)%nat eqn:S3.
  { rewrite !append_cons. cbn [json.string_body].
    rewrite (string_step_rune3 _ _ _ _ _ _ _ F S2 S3 B1 B2).
    rewrite (IH (String.length T3)); [reflexivity | lia | reflexivity | assumption | lia]. }
  destruct T3 as [|b3 T4]; [discriminate|].
  apply andb_true_iff in V as [B3 V].
  pose proof (cont_ge _ B3) as R3.
  rewrite quoted_high in * by lia.
  cbn [String.length] in Hn, L.
  rewrite !append_cons. cbn [json.string_body].
  rewrite (string_step_rune4 _ _ _ _ _ _ _ _ F S2 S3 B1 B2 B3).
  rewrite (IH (String.length T4)); [reflexivity | lia | reflexivity | assumption | lia].
Qed.

Lemma skip_space_spaces ws s :
  Text.spaces ws = true -> json.skip_space (ws +:+ s) = json.skip_space s.
Proof.
  induction ws as [|c ws IH]; [reflexivity|].
  cbn [Text.spaces]. rewrite andb_true_iff. intros [Hc Hws].
  rewrite append_cons. cbn [json.skip_space]. rewrite Hc. now apply IH.
Qed.

Lemma literal_append T rest :
  Text.literal T +:+ rest
  = String (byte 0x22) (Text.quoted T +:+ Text.dq +:+ rest).
Proof. unfold Text.literal, Text.dq. now rewrite !append_assoc. Qed.

(** A string literal, after white space, is scanned as the string it
    denotes. *)
Lemma value_literal fuel depth ws T rest :
  Text.spaces ws = true -> utf8.ValidString T = true ->
  (String.length (Text.quoted T) + 1 < fuel)%nat ->
  json.value fuel depth (ws +:+ Text.literal T +:+ rest)
  = json.Scanned (json.Str T) rest.
Proof.
  intros Hws V L. destruct fuel as [|fuel]; [lia|].
  cbn [json.value]. rewrite skip_space_spaces, literal_append by assumption.
  cbn [json.skip_space]. 
  change (json.isSpace (byte 34)) with false. cbv iota.
  change (code (byte 34) =? 123) with false.
  change (code (byte 34) =? 91) with false.
  change (code (byte 34) =? 34) with true. cbv iota.
  rewrite string_body_quoted by (assumption || lia). reflexivity.
Qed.

Lemma members_token fuel depth ws1 ws2 ws3 ws4 T tail :
  Text.spaces ws1 = true -> Text.spaces ws2 = true ->
  Text.spaces ws3 = true -> Text.spaces ws4 = true ->
  utf8.ValidString T = true ->
  (String.length (Text.quoted T) + 7 < fuel)%nat ->
  json.members fuel depth
    (ws1 +:+ Text.literal "value" +:+ ws2 +:+ ":" +:+ ws3 +:+ Text.literal T
         +:+ ws4 +:+ "}" +:+ tail)
  = json.Scanned [("value", json.Str T)] tail.
Proof.
  intros H1 H2 H3 H4 V L. destruct fuel as [|fuel]; [lia|].
  cbn [json.members]. rewrite skip_space_spaces, literal_append by assumption.
  cbn [json.skip_space].
  change (json.isSpace (byte 34)) with false. cbv iota.
  change (code (byte 34) =? 34) with true. cbv iota.
  rewrite string_body_quoted;
    [|reflexivity
     |change (String.length (Text.quoted "value")) with 5%nat; lia].
  cbn [json.and_then]. rewrite skip_space_spaces by assumption.
  rewrite append_cons, append_nil_l. cbn [json.skip_space].
  change (json.isSpace ":") with false. cbv iota.
  change (code ":" =? 58) with true. cbv iota.
  rewrite value_literal by (assumption || lia).
  cbn [json.and_then]. rewrite skip_space_spaces by assumption.
  rewrite append_cons, append_nil_l. cbn [json.skip_space].
  change (json.isSpace "}") with false. cbv iota.
  change (code "}" =? 44) with false. change (code "}" =? 125) with true.
  reflexivity.
Qed.

Lemma value_token_object fuel ws1 ws2 ws3 ws4 T tail :
  Text.spaces ws1 = true -> Text.spaces ws2 = true ->
  Text.spaces ws3 = true -> Text.spaces ws4 = true ->
  utf8.ValidString T = true ->
  (String.length (Text.quoted T) + 8 < fuel)%nat ->
  json.value fuel 0 (Text.token_object ws1 ws2 ws3 ws4 T +:+ tail)
  = json.Scanned (json.Object [("value", json.Str T)]) tail.
Proof.
  intros H1 H2 H3 H4 V L. destruct fuel as [|fuel]; [lia|].
  unfold Text.token_object. rewrite !append_assoc.
  rewrite append_cons, append_nil_l.
  cbn [json.value json.skip_space].
  change (json.isSpace "{") with false. cbv iota.
  change (code "{" =? 123) with true. cbv iota.
  change (0 <? json.maxNestingDepth) with true. cbv iota.
  rewrite skip_space_spaces, literal_append by assumption.
  cbn [json.skip_space].
  change (json.isSpace (byte 34)) with false. cbv iota.
  change (code (byte 34) =? 125) with false. cbv iota.
  rewrite <- literal_append.
  rewrite members_token by (assumption || lia). reflexivity.
Qed.

(** ** The recursion budget of the scanner is never used up *)

Lemma skip_space_length s : (String.length (json.skip_space s) <= String.length s)%nat.
Proof.
  induction s as [|c s IH]; cbn [json.skip_space]; [lia|].
  destruct (json.isSpace c); cbn [String.length] in *; lia.
Qed.

Lemma drop_length n s : (String.length (drop n s) <= String.length s)%nat.
Proof.
  revert s; induction n as [|n IH]; intros [|c s]; cbn [drop String.length];
    try lia.
  specialize (IH s). lia.
Qed.

Lemma digits_length s : (String.length (json.digits s) <= String.length s)%nat.
Proof.
  induction s as [|c s IH]; cbn [json.digits]; [lia|].
  destruct (json.isDigit c); cbn [String.length] in *; lia.
Qed.

Lemma expect_length lit s r :
  json.expect lit s = json.Scanned tt r -> (String.length r <= String.length s)%nat.
Proof.
  revert s; induction lit as [|c lit IH]; intros s; cbn [json.expect].
  - intros [= ->]. lia.
  - destruct s as [|d s]; [discriminate|].
    destruct (Ascii.eqb c d); [|discriminate].
    intros H. apply IH in H. cbn [String.length]. lia.
Qed.

Lemma hexdigits_length n acc s r s' :
  json.hexdigits n acc s = json.Scanned r s' -> (String.length s' <= String.length s)%nat.
Proof.
  revert acc s; induction n as [|n IH]; intros acc s; cbn [json.hexdigits].
  - intros [= _ ->]. lia.
  - destruct s as [|c s]; [discriminate|].
    destruct (json.unhex c); [|discriminate].
    intros H. apply IH in H. cbn [String.length]. lia.
Qed.

Lemma hexdigits_not_exhausted n acc s :
  json.hexdigits n acc s <> json.Exhausted.
Proof.
  revert acc s; induction n as [|n IH]; intros acc s; cbn [json.hexdigits].
  - discriminate.
  - destruct s as [|c s]; [discriminate|].
    destruct (json.unhex c); [apply IH | discriminate].
Qed.

Ltac split_ifs :=
  repeat match goal with
         | |- context [if ?b then _ else _] => destruct b
         end.

Lemma stateESign_length s r :
  json.stateESign s = json.Scanned tt r -> (String.length r < String.length s)%nat.
Proof.
  destruct s as [|c s]; cbn [json.stateESign]; [discriminate|].
  destruct (json.isDigit c); [|discriminate]. intros [= <-].
  pose proof (digits_length s). cbn [String.length]. lia.
Qed.

Lemma stateE_length s r :
  json.stateE s = json.Scanned tt r -> (String.length r < String.length s)%nat.
Proof.
  destruct s as [|c s]; cbn [json.stateE]; [discriminate|].
  destruct (_ || _); intros H; apply stateESign_length in H;
    cbn [String.length] in *; lia.
Qed.

Lemma stateDot0_length s r :
  json.stateDot0 s = json.Scanned tt r -> (String.length r <= String.length s)%nat.
Proof.
  destruct s as [|c s]; cbn [json.stateDot0]; [intros [= <-]; lia|].
  destruct (_ || _); [|intros [= <-]; lia].
  intros H; apply stateE_length in H. cbn [String.length]. lia.
Qed.

Lemma stateDot_length s r :
  json.stateDot s = json.Scanned tt r -> (String.length r < String.length s)%nat.
Proof.
  destruct s as [|c s]; cbn [json.stateDot]; [discriminate|].
  destruct (json.isDigit c); [|discriminate].
  intros H; apply stateDot0_length in H.
  pose proof (digits_length s). cbn [String.length]. lia.
Qed.

Lemma state0_length s r :
  json.state0 s = json.Scanned tt r -> (String.length r <= String.length s)%nat.
Proof.
  destruct s as [|c s]; cbn [json.state0]; [intros [= <-]; lia|].
  destruct (code c =? 46).
  { intros H; apply stateDot_length in H. cbn [String.length]. lia. }
  destruct (_ || _); [|intros [= <-]; lia].
  intros H; apply stateE_length in H. cbn [String.length]. lia.
Qed.

Lemma stateNeg_length s r :
  json.stateNeg s = json.Scanned tt r -> (String.length r < String.length s)%nat.
Proof.
  destruct s as [|c s]; cbn [json.stateNeg]; [discriminate|].
  destruct (code c =? 48).
  { intros H; apply state0_length in H. cbn [String.length]. lia. }
  destruct (between 49 57 c); [|discriminate].
  intros H; apply state0_length in H.
  pose proof (digits_length s). cbn [String.length]. lia.
Qed.

Lemma number_length s r :
  json.number s = json.Scanned tt r -> (String.length r < String.length s)%nat.
Proof.
  destruct s as [|c s]; cbn [json.number]; [discriminate|].
  destruct (code c =? 45); intros H; apply stateNeg_length in H;
    cbn [String.length] in *; lia.
Qed.

Lemma number_not_exhausted s : json.number s <> json.Exhausted.
Proof.
  unfold json.number, json.stateNeg, json.state0, json.stateDot,
    json.stateDot0, json.stateE, json.stateESign.
  repeat match goal with
         | |- context [match ?x with _ => _ end] => destruct x
         end; discriminate.
Qed.

Lemma expect_not_exhausted lit s : json.expect lit s <> json.Exhausted.
Proof.
  revert s; induction lit as [|c lit IH]; intros s; cbn [json.expect].
  - discriminate.
  - destruct s as [|d s]; [discriminate|].
    destruct (Ascii.eqb c d); [apply IH | discriminate].
Qed.

Lemma DecodeRune_size c s r n :
  utf8.DecodeRune (String c s) = (r, n) -> (1 <= n)%nat.
Proof.
  unfold utf8.DecodeRune.
  repeat match goal with
         | |- context [match ?x with _ => _ end] => destruct x
         end; intros [= _ <-]; lia.
Qed.

Lemma unicode_escape_length s :
  match json.unicode_escape s with
  | json.Bytes _ rest | json.Quote rest => (String.length rest <= String.length s)%nat
  | _ => True
  end.
Proof.
  unfold json.unicode_escape.
  destruct (json.hexdigits 4 0 s) as [rr s'| | |] eqn:H; try exact I.
  apply hexdigits_length in H. pose proof (drop_length 6 s').
  split_ifs; lia.
Qed.

Lemma escape_length s :
  match json.escape s with
  | json.Bytes _ rest | json.Quote rest => (String.length rest < String.length s)%nat
  | _ => True
  end.
Proof.
  destruct s as [|e s]; cbn [json.escape]; [exact I|].
  pose proof (unicode_escape_length s) as U.
  split_ifs; cbn [String.length]; try lia; try exact I.
  destruct (json.unicode_escape s); try exact I; lia.
Qed.

Lemma string_step_length s :
  match json.string_step s with
  | json.Bytes _ rest | json.Quote rest => (String.length rest < String.length s)%nat
  | _ => True
  end.
Proof.
  destruct s as [|c s]; cbn [json.string_step]; [exact I|].
  pose proof (escape_length s) as E.
  destruct (code c =? 34); [cbn [String.length]; lia|].
  destruct (code c =? 92).
  { destruct (json.escape s); try exact I; cbn [String.length]; lia. }
  destruct (code c <? 32); [exact I|].
  destruct (code c <? 128); [cbn [String.length]; lia|].
  destruct (utf8.DecodeRune (String c s)) as [rr size] eqn:D.
  apply DecodeRune_size in D. destruct size as [|size]; [lia|].
  cbn [drop String.length]. pose proof (drop_length size s). lia.
Qed.

Lemma string_body_budget fuel : forall s,
  (String.length s < fuel)%nat ->
  json.string_body fuel s <> json.Exhausted
  /\ forall t r, json.string_body fuel s = json.Scanned t r ->
                 (String.length r < String.length s)%nat.
Proof.
  induction fuel as [|fuel IH]; intros s L; [lia|].
  cbn [json.string_body]. pose proof (string_step_length s) as St.
  destruct (json.string_step s) as [out rest|rest| |].
  - destruct (IH rest ltac:(lia)) as [NE Sh].
    destruct (json.string_body fuel rest) as [t r| | |] eqn:B;
      cbn [json.and_then]; split; try discriminate; try congruence.
    intros t' r' [= _ <-]. specialize (Sh _ _ eq_refl). lia.
  - split; [discriminate|]. intros t r [= _ <-]. lia.
  - split; discriminate.
  - split; discriminate.
Qed.

Lemma within_budget_and_then {A B} (x : json.scan A) (k : A -> string -> json.scan B) s1 s :
  within_budget x s1 ->
  (forall a r, (String.length r < String.length s1)%nat -> within_budget (k a r) s) ->
  within_budget (json.and_then x k) s.
Proof.
  intros [NE Sh] K. destruct x as [a r| | |]; cbn [json.and_then].
  - apply K, (Sh a r eq_refl).
  - split; discriminate.
  - split; discriminate.
  - congruence.
Qed.

Lemma within_budget_Scanned {A} (a : A) r s :
  (String.length r < String.length s)%nat -> within_budget (json.Scanned a r) s.
Proof. intros H. split; [discriminate|]. now intros ? ? [= _ <-]. Qed.

Lemma within_budget_Invalid {A} s : within_budget (@json.Invalid A) s.
Proof. split; discriminate. Qed.

Lemma within_budget_Short {A} s : within_budget (@json.Short A) s.
Proof. split; discriminate. Qed.

Lemma within_budget_weaken {A} (x : json.scan A) s s' :
  (String.length s <= String.length s')%nat ->
  within_budget x s -> within_budget x s'.
Proof. intros L [NE Sh]. split; [exact NE|]. intros a r E. specialize (Sh a r E). lia. Qed.

Create HintDb budget.
#[local] Hint Resolve within_budget_Scanned within_budget_Invalid within_budget_Short : budget.

Lemma value_budget fuel :
  (forall depth s, (2 * String.length s < fuel)%nat ->
                   within_budget (json.value fuel depth s) s)
  /\ (forall depth s, (2 * String.length s < fuel)%nat ->
                      within_budget (json.members fuel depth s) s)
  /\ (forall depth s, (2 * String.length s + 1 < fuel)%nat ->
                      within_budget (json.elements fuel depth s) s).
Proof.
  induction fuel as [|fuel (IHv & IHm & IHe)];
    [split; [|split]; intros; lia|].
  split; [|split]; intros depth s L.
  - (* value *)
    cbn [json.value]. pose proof (skip_space_length s) as K.
    destruct (json.skip_space s) as [|c s1]; [apply within_budget_Short|].
    cbn [String.length] in K.
    destruct (code c =? 123).
    { destruct (depth <? json.maxNestingDepth); [|apply within_budget_Invalid].
      pose proof (skip_space_length s1) as K1.
      destruct (json.skip_space s1) as [|c1 s2]; [apply within_budget_Short|].
      cbn [String.length] in K1.
      destruct (code c1 =? 125); [apply within_budget_Scanned; lia|].
      eapply within_budget_and_then; [apply IHm; lia|].
      intros; apply within_budget_Scanned; lia. }
    destruct (code c =? 91).
    { destruct (depth <? json.maxNestingDepth); [|apply within_budget_Invalid].
      pose proof (skip_space_length s1) as K1.
      destruct (json.skip_space s1) as [|c1 s2]; [apply within_budget_Short|].
      cbn [String.length] in K1.
      destruct (code c1 =? 93); [apply within_budget_Scanned; lia|].
      eapply within_budget_and_then; [apply IHe; lia|].
      intros; apply within_budget_Scanned; lia. }
    destruct (code c =? 34).
    { eapply within_budget_and_then;
        [apply (string_body_budget fuel s1); lia|].
      intros; apply within_budget_Scanned; lia. }
    destruct (code c =? 116).
    { pose proof (expect_length "rue" s1) as E.
      pose proof (expect_not_exhausted "rue" s1) as NE.
      destruct (json.expect "rue" s1) as [[] r| | |]; cbn [json.and_then];
        auto with budget; [|congruence].
      specialize (E r eq_refl). apply within_budget_Scanned; lia. }
    destruct (code c =? 102).
    { pose proof (expect_length "alse" s1) as E.
      pose proof (expect_not_exhausted "alse" s1) as NE.
      destruct (json.expect "alse" s1) as [[] r| | |]; cbn [json.and_then];
        auto with budget; [|congruence].
      specialize (E r eq_refl). apply within_budget_Scanned; lia. }
    destruct (code c =? 110).
    { pose proof (expect_length "ull" s1) as E.
      pose proof (expect_not_exhausted "ull" s1) as NE.
      destruct (json.expect "ull" s1) as [[] r| | |]; cbn [json.and_then];
        auto with budget; [|congruence].
      specialize (E r eq_refl). apply within_budget_Scanned; lia. }
    destruct (_ || _); [|apply within_budget_Invalid].
    pose proof (number_length (String c s1)) as E.
    pose proof (number_not_exhausted (String c s1)) as NE.
    destruct (json.number (String c s1)) as [[] r| | |]; cbn [json.and_then];
      auto with budget; [|congruence].
    specialize (E r eq_refl). cbn [String.length] in E.
    apply within_budget_Scanned; lia.
  - (* members *)
    cbn [json.members]. pose proof (skip_space_length s) as K.
    destruct (json.skip_space s) as [|c s1]; [apply within_budget_Short|].
    cbn [String.length] in K.
    destruct (code c =? 34); [|apply within_budget_Invalid].
    eapply within_budget_and_then; [apply (string_body_budget fuel s1); lia|].
    intros key s2 L2. pose proof (skip_space_length s2) as K2.
    destruct (json.skip_space s2) as [|c2 s3]; [apply within_budget_Short|].
    cbn [String.length] in K2.
    destruct (code c2 =? 58); [|apply within_budget_Invalid].
    eapply within_budget_and_then; [apply IHv; lia|].
    intros v s4 L4. pose proof (skip_space_length s4) as K4.
    destruct (json.skip_space s4) as [|c4 s5]; [apply within_budget_Short|].
    cbn [String.length] in K4.
    destruct (code c4 =? 44).
    { eapply within_budget_and_then; [apply IHm; lia|].
      intros; apply within_budget_Scanned; lia. }
    destruct (code c4 =? 125); [apply within_budget_Scanned; lia|].
    apply within_budget_Invalid.
  - (* elements *)
    cbn [json.elements].
    eapply within_budget_and_then; [apply IHv; lia|].
    intros v s1 L1. pose proof (skip_space_length s1) as K1.
    destruct (json.skip_space s1) as [|c s2]; [apply within_budget_Short|].
    cbn [String.length] in K1.
    destruct (code c =? 44).
    { eapply within_budget_and_then; [apply IHe; lia|].
      intros; apply within_budget_Scanned; lia. }
    destruct (code c =? 93); [apply within_budget_Scanned; lia|].
    apply within_budget_Invalid.
Qed.

(** The budget [Decode] gives the scanner is enough: [value] never
    answers [Exhausted] there. *)
Lemma first_value_fuel s : json.first_value s <> json.Exhausted.
Proof. apply (value_budget (S (2 * String.length s))). lia. Qed.

(** ** Decoding into the response struct *)

Lemma token_object_length ws1 ws2 ws3 ws4 T :
  (String.length (Text.quoted T) + 12
   <= String.length (Text.token_object ws1 ws2 ws3 ws4 T))%nat.
Proof.
  unfold Text.token_object, Text.literal, Text.dq.
  change (Text.quoted "value") with "value".
  rewrite !length_append. cbn [String.length]. lia.
Qed.

Lemma Decode_token_object ws1 ws2 ws3 ws4 T tail fault v :
  Text.spaces ws1 = true -> Text.spaces ws2 = true ->
  Text.spaces ws3 = true -> Text.spaces ws4 = true ->
  utf8.ValidString T = true ->
  Decode {| data := Text.token_object ws1 ws2 ws3 ws4 T +:+ tail;
            fault := fault |} v
  = ({| Value := T |}, None).
Proof.
  intros H1 H2 H3 H4 V. unfold Decode, json.first_value. cbn [data].
  rewrite value_token_object; try assumption.
  - cbn [self_delimited]. now destruct tail.
  - pose proof (token_object_length ws1 ws2 ws3 ws4 T).
    rewrite length_append. lia.
Qed.

(** [object] fails exactly when an error was saved before or some
    member named [value] holds what a string field cannot store. *)
Lemma object_error ms : forall st,
  snd (object ms st) = None
  <-> snd st = None
      /\ existsb (fun m => is_value_key (fst m) && negb (storable (snd m))) ms
         = false.
Proof.
  induction ms as [|[key v] ms IH]; intros st; cbn [object existsb fst snd].
  - tauto.
  - rewrite IH. destruct (is_value_key key); cbn [andb orb]; [|tauto].
    destruct v, st as [x [e|]]; cbn; intuition congruence.
Qed.

Lemma unmarshal_error j v : snd (unmarshal j v) = None <-> refused j = false.
Proof.
  destruct j; cbn [unmarshal refused snd]; try (split; congruence).
  rewrite object_error. cbn [snd]. tauto.
Qed.

(** A value the decoder refuses makes [Decode] fail, whatever follows
    it and however the stream ends. *)
Lemma Decode_refused body v j rest :
  json.first_value (data body) = json.Scanned j rest -> refused j = true ->
  snd (Decode body v) <> None.
Proof.
  intros E R. unfold Decode. rewrite E.
  assert (snd (unmarshal j v) <> None) as U.
  { rewrite unmarshal_error. congruence. }
  destruct rest, (self_delimited j), (fault body); cbn [snd]; congruence.
Qed.

(** ** Running the operations *)

(** A value the decoder does not refuse is stored without error when
    the stream ends cleanly. *)
Lemma Decode_accepted body v j rest :
  json.first_value (data body) = json.Scanned j rest -> refused j = false ->
  fault body = None ->
  Decode body v = unmarshal j v /\ snd (unmarshal j v) = None.
Proof.
  intros E R F. unfold Decode. rewrite E, F.
  split; [|now apply unmarshal_error].
  now destruct rest, (self_delimited j).
Qed.

(** Plain strings are written as they are, and are valid UTF-8. *)
Lemma quote_byte_plain c : Text.plain_byte c = true -> Text.quote_byte c = String c "".
Proof.
  unfold Text.plain_byte, Text.quote_byte.
  rewrite !andb_true_iff, !negb_true_iff, N.leb_le.
  intros [[[H1 _] -> ] ->].
  destruct (code c <? 0x20) eqn:E; [apply N.ltb_lt in E; lia | reflexivity].
Qed.

Lemma quoted_plain s : Text.plain s = true -> Text.quoted s = s.
Proof.
  induction s as [|c s IH]; [reflexivity|].
  cbn [Text.plain Text.quoted]. rewrite andb_true_iff. intros [Hc Hs].
  now rewrite quote_byte_plain, IH.
Qed.

Lemma ValidString_plain s : Text.plain s = true -> utf8.ValidString s = true.
Proof.
  induction s as [|c s IH]; [reflexivity|].
  cbn [Text.plain utf8.ValidString]. rewrite andb_true_iff. intros [Hc Hs].
  unfold Text.plain_byte in Hc. rewrite !andb_true_iff in Hc.
  destruct Hc as [[[_ ->] _] _]. now apply IH.
Qed.

(** For a plain token the body of [token_response] is the text
    [{"value": "T"}] byte for byte. *)
Lemma token_response_plain T :
  Text.plain T = true ->
  Text.token_response T
  = "{" +:+ Text.dq +:+ "value" +:+ Text.dq +:+ ": "
        +:+ Text.dq +:+ T +:+ Text.dq +:+ "}".
Proof.
  intros H. unfold Text.token_response, Text.token_object, Text.literal.
  rewrite (quoted_plain T H). change (Text.quoted "value") with "value".
  unfold Text.dq. rewrite !append_assoc.
  repeat (rewrite append_cons || rewrite append_nil_l). reflexivity.
Qed.

Lemma with_sink_with_sink k k' w : with_sink k (with_sink k' w) = with_sink k w.
Proof. reflexivity. Qed.

Lemma with_sink_sink_of w : with_sink (sink_of w) w = w.
Proof. now destruct w. Qed.

Lemma extend_with_sink es k w : extend es (with_sink k w) = with_sink k (extend es w).
Proof. reflexivity. Qed.

Lemma extend_nil w : extend [] w = w.
Proof. destruct w; unfold extend; cbn. now rewrite app_nil_r. Qed.

Lemma extend_extend es es' w : extend es' (extend es w) = extend (es ++ es') w.
Proof. unfold extend; cbn. now rewrite app_assoc. Qed.

(** One log line: the timestamp is read, the line is written, and only
    the sink has changed, whatever the file is and whether or not the
    write succeeds. *)
Lemma log_line {A} (f : option nat) (line : string -> string) (k : M A) w :
  exists s, (now ← Now_RFC3339; _ ← WriteString f (line now); k) w
            = k (with_sink s w).
Proof.
  unfold mbind, M_bind, Now_RFC3339, WriteString; cbn.
  destruct f as [fd|]; cbn.
  - destruct (disk w !! fd) as [old|]; cbn; eexists (Build_Sink _ _ _ _ _);
      unfold with_sink; cbn; reflexivity.
  - eexists (Build_Sink _ _ _ _ _); unfold with_sink; cbn; reflexivity.
Qed.

Ltac log_step :=
  match goal with
  | |- context [mbind (fun now => mbind (fun _ => ?k) (WriteString ?f (@?g now)))
                      Now_RFC3339 ?w] =>
      let s := fresh "s" in
      let E := fresh "E" in
      destruct (log_line f g k w) as [s E]; rewrite E; clear E
  end.

Lemma Add_run gh creds w : exists s, Add gh creds w = (None, with_sink s w).
Proof. unfold Add. log_step. now exists s. Qed.

Lemma Delete_run gh serverURL w :
  exists s, Delete gh serverURL w = (None, with_sink s w).
Proof. unfold Delete. log_step. now exists s. Qed.

Lemma List_run gh w : exists s, List gh w = ((None, None), with_sink s w).
Proof. unfold List. log_step. now exists s. Qed.

Lemma Getenv_run {A} key (k : string -> M A) w :
  (x ← os_Getenv key; k x) w = k (getenv w key) w.
Proof. reflexivity. Qed.

Lemma bind_run {A B} (m : M A) (k : A -> M B) w :
  (m ≫= k) w = let '(a, w') := m w in k a w'.
Proof. reflexivity. Qed.

Lemma ret_run {A} (x : A) (w : World) : @mret M _ A x w = (x, w).
Proof. reflexivity. Qed.

Lemma record_run e w : record e w = (tt, extend [e] w).
Proof. reflexivity. Qed.

Lemma Client_Do_run {A} req (k : Response + error -> M A) w :
  (res ← Client_Do req; k res) w
  = k (transport w (trace w) req)
      (extend [RoundTrip req (transport w (trace w) req)] w).
Proof. reflexivity. Qed.

Lemma getenv_with_sink s w key : getenv (with_sink s w) key = getenv w key.
Proof. reflexivity. Qed.

Lemma getenv_empty w key : getenv w key = "" <-> unset_or_empty w key.
Proof.
  unfold getenv, unset_or_empty.
  destruct (environ w !! key) as [v|]; cbn; split; intros H; auto.
  - right. now subst.
  - destruct H as [H|H]; [discriminate | now injection H].
Qed.

Lemma strings_Contains_byte c s :
  strings_Contains s (String c "") = true <-> occurs c s.
Proof.
  induction s as [|d s IH]; cbn.
  - split; [discriminate | tauto].
  - rewrite orb_true_iff, IH, andb_true_r, Ascii.eqb_eq. tauto.
Qed.

Section Run.

Variable url_Parse : string -> option error.

Lemma Get_run gh serverURL w :
  exists s,
    Get url_Parse gh serverURL w
    = (returned (fetch url_Parse w),
       with_sink s (extend (events (fetch url_Parse w)) w)).
Proof.
  unfold Get, fetch. log_step.
  rewrite !Getenv_run, !getenv_with_sink.
  destruct (_ || _) eqn:Henv.
  { log_step. exists s0. cbn. now rewrite extend_nil. }
  rewrite Getenv_run, getenv_with_sink.
  assert (exists s', forall A (k : string -> M A),
            ((if negb (String.eqb (getenv w "ACTIONS_ID_TOKEN_REQUEST_AUDIENCE") "")
              then
                now ← Now_RFC3339;
                _ ← WriteString (LogFile gh)
                    (now +:+ ": Added OIDC audience to request URL: "
                       +:+ (getenv w "ACTIONS_ID_TOKEN_REQUEST_URL" +:+
                              (if strings_Contains
                                    (getenv w "ACTIONS_ID_TOKEN_REQUEST_URL") "?"
                               then "&" else "?") +:+ "audience=" +:+
                              url.QueryEscape
                                (getenv w "ACTIONS_ID_TOKEN_REQUEST_AUDIENCE"))
                       +:+ LF);
                mret (getenv w "ACTIONS_ID_TOKEN_REQUEST_URL" +:+
                        (if strings_Contains
                              (getenv w "ACTIONS_ID_TOKEN_REQUEST_URL") "?"
                         then "&" else "?") +:+ "audience=" +:+
                        url.QueryEscape
                          (getenv w "ACTIONS_ID_TOKEN_REQUEST_AUDIENCE"))
              else mret (getenv w "ACTIONS_ID_TOKEN_REQUEST_URL")) ≫= k)
              (with_sink s w)
            = k (endpoint_URL w) (with_sink s' w)) as [s' Haud].
  { unfold endpoint_URL.
    destruct (String.eqb (getenv w "ACTIONS_ID_TOKEN_REQUEST_AUDIENCE") "");
      cbn [negb].
    - exists s. reflexivity.
    - destruct (log_line (LogFile gh)
                 (fun now => now +:+ ": Added OIDC audience to request URL: "
                       +:+ (getenv w "ACTIONS_ID_TOKEN_REQUEST_URL" +:+
                              (if strings_Contains
                                    (getenv w "ACTIONS_ID_TOKEN_REQUEST_URL") "?"
                               then "&" else "?") +:+ "audience=" +:+
                              url.QueryEscape
                                (getenv w "ACTIONS_ID_TOKEN_REQUEST_AUDIENCE"))
                       +:+ LF)
                 (mret (getenv w "ACTIONS_ID_TOKEN_REQUEST_URL" +:+
                        (if strings_Contains
                              (getenv w "ACTIONS_ID_TOKEN_REQUEST_URL") "?"
                         then "&" else "?") +:+ "audience=" +:+
                        url.QueryEscape
                          (getenv w "ACTIONS_ID_TOKEN_REQUEST_AUDIENCE")))
                 (with_sink s w)) as [s' E].
      exists s'. intros A k. unfold mbind at 1, M_bind at 1.
      rewrite E. reflexivity. }
  rewrite Haud. clear Haud s.
  unfold http_NewRequest.
  destruct (url_Parse (endpoint_URL w)) as [err|].
  { log_step. exists s. cbn. now rewrite extend_nil. }
  change (Header_Set (Header_Set _ _ _) _ _) with (token_request w).
  rewrite Client_Do_run. cbn [transport trace with_sink].
  destruct (transport w (trace w) (token_request w)) as [resp|err].
  2:{ log_step. exists s. reflexivity. }
  unfold defer, Body_Close. rewrite !bind_run.
  destruct (StatusCode resp =? StatusOK)%Z; cbn [negb].
  - unfold Decoder_Decode. rewrite 2!bind_run, record_run.
    rewrite ?ret_run. cbv beta iota.
    destruct (Decode (Body resp) {| Value := "" |}) as [v [err|]];
      log_step; rewrite ?ret_run; cbv beta iota;
      rewrite bind_run, record_run; rewrite ?ret_run;
      exists s; cbn [returned events];
      rewrite !extend_with_sink, !extend_extend; reflexivity.
  - log_step. rewrite ?ret_run; cbv beta iota.
    rewrite bind_run, record_run; rewrite ?ret_run.
    exists s; cbn [returned events].
    rewrite !extend_with_sink, !extend_extend; reflexivity.
Qed.

(** What each outcome of [fetch] says about the world it was computed
    in. *)
Lemma fetch_inv w :
  match fetch url_Parse w with
  | MissingEnvironment =>
      getenv w "ACTIONS_ID_TOKEN_REQUEST_URL" = ""
      \/ getenv w "ACTIONS_ID_TOKEN_REQUEST_TOKEN" = ""
  | RequestConstructionFailure err => url_Parse (endpoint_URL w) = Some err
  | NetworkFailure req err =>
      req = token_request w /\ transport w (trace w) req = inr err
  | NonOKStatus req resp =>
      req = token_request w /\ transport w (trace w) req = inl resp
      /\ StatusCode resp <> StatusOK
  | DecodeFailure req resp err =>
      req = token_request w /\ transport w (trace w) req = inl resp
      /\ StatusCode resp = StatusOK
      /\ snd (Decode (Body resp) {| Value := "" |}) = Some err
  | Fetched req resp token =>
      req = token_request w /\ transport w (trace w) req = inl resp
      /\ StatusCode resp = StatusOK
      /\ Decode (Body resp) {| Value := "" |} = ({| Value := token |}, None)
  end.
Proof.
  unfold fetch.
  destruct (String.eqb (getenv w "ACTIONS_ID_TOKEN_REQUEST_URL") "") eqn:EU.
  { left. now apply String.eqb_eq. }
  destruct (String.eqb (getenv w "ACTIONS_ID_TOKEN_REQUEST_TOKEN") "") eqn:ET.
  { right. now apply String.eqb_eq. }
  cbn [orb].
  destruct (url_Parse (endpoint_URL w)) as [err|]; [reflexivity|].
  destruct (transport w (trace w) (token_request w)) as [resp|err] eqn:EX;
    [|now split].
  destruct (StatusCode resp =? StatusOK)%Z eqn:ES.
  - apply Z.eqb_eq in ES.
    destruct (Decode (Body resp) {| Value := "" |}) as [[v] [err|]] eqn:ED;
      cbn; rewrite ?ED; auto.
  - apply Z.eqb_neq in ES. auto.
Qed.

(** An exchange that [Get] made is the one [fetch] describes. *)
Lemma exchanged_fetch gh serverURL w req res :
  exchanged w (snd (Get url_Parse gh serverURL w)) req res ->
  req = token_request w /\ transport w (trace w) req = res
  /\ exists later, events (fetch url_Parse w) = RoundTrip req res :: later.
Proof.
  intros [later H].
  destruct (Get_run gh serverURL w) as [s E]. rewrite E in H. cbn in H.
  apply app_inv_head in H.
  pose proof (fetch_inv w) as I.
  destruct (fetch url_Parse w); cbn in H; try discriminate;
    injection H as -> <- <-; intuition eauto; congruence.
Qed.

Lemma fetch_with_sink s w : fetch url_Parse (with_sink s w) = fetch url_Parse w.
Proof. reflexivity. Qed.

(** The value [Get] returns does not depend on the helper's log file,
    on the registry URL or on the state of the sink. *)
Lemma Get_returned gh serverURL w :
  fst (Get url_Parse gh serverURL w) = returned (fetch url_Parse w).
Proof. destruct (Get_run gh serverURL w) as [s ->]. reflexivity. Qed.

Lemma Get_trace gh serverURL w :
  trace (snd (Get url_Parse gh serverURL w))
  = trace w ++ events (fetch url_Parse w).
Proof. destruct (Get_run gh serverURL w) as [s ->]. reflexivity. Qed.

(** [Get] makes an exchange exactly when both required variables are
    set to something and the request can be constructed; the answer is
    the transport's. *)
Lemma exchanged_environment gh serverURL w req res :
  exchanged w (snd (Get url_Parse gh serverURL w)) req res ->
  getenv w "ACTIONS_ID_TOKEN_REQUEST_URL" <> ""
  /\ getenv w "ACTIONS_ID_TOKEN_REQUEST_TOKEN" <> ""
  /\ url_Parse (endpoint_URL w) = None.
Proof.
  intros H. apply exchanged_fetch in H as (_ & _ & later & H).
  unfold fetch in H.
  destruct (String.eqb (getenv w "ACTIONS_ID_TOKEN_REQUEST_URL") "") eqn:EU;
    [discriminate|].
  destruct (String.eqb (getenv w "ACTIONS_ID_TOKEN_REQUEST_TOKEN") "") eqn:ET;
    [discriminate|].
  apply String.eqb_neq in EU, ET. cbn [orb] in H.
  destruct (url_Parse (endpoint_URL w)); [discriminate | auto].
Qed.

Lemma Get_exchanges gh serverURL w :
  getenv w "ACTIONS_ID_TOKEN_REQUEST_URL" <> "" ->
  getenv w "ACTIONS_ID_TOKEN_REQUEST_TOKEN" <> "" ->
  url_Parse (endpoint_URL w) = None ->
  exchanged w (snd (Get url_Parse gh serverURL w)) (token_request w)
    (transport w (trace w) (token_request w)).
Proof.
  intros HU HT HP. unfold exchanged. rewrite Get_trace. unfold fetch.
  apply String.eqb_neq in HU, HT. rewrite HU, HT, HP. cbn [orb].
  destruct (transport w (trace w) (token_request w)) as [resp|err];
    [|now exists []].
  destruct (StatusCode resp =? StatusOK)%Z; [|now eexists].
  destruct (Decode (Body resp) {| Value := "" |}) as [v [e|]]; now eexists.
Qed.

(** [fetch] reads the three variables and asks the endpoint once. *)
Lemma fetch_determined w w' :
  getenv w' "ACTIONS_ID_TOKEN_REQUEST_URL"
    = getenv w "ACTIONS_ID_TOKEN_REQUEST_URL" ->
  getenv w' "ACTIONS_ID_TOKEN_REQUEST_TOKEN"
    = getenv w "ACTIONS_ID_TOKEN_REQUEST_TOKEN" ->
  getenv w' "ACTIONS_ID_TOKEN_REQUEST_AUDIENCE"
    = getenv w "ACTIONS_ID_TOKEN_REQUEST_AUDIENCE" ->
  (forall req, transport w' (trace w') req = transport w (trace w) req) ->
  fetch url_Parse w' = fetch url_Parse w.
Proof.
  intros HU HT HA HX.
  unfold fetch, token_request, endpoint_URL. now rewrite HU, HT, HA, HX.
Qed.

(** C3. When ACTIONS_ID_TOKEN_REQUEST_URL or
    ACTIONS_ID_TOKEN_REQUEST_TOKEN is unset or empty, in any
    combination, [Get] returns the CredentialsNotFound error and the
    trace of network events is left as it was: no HTTP call is made. *)
Theorem Get_missing_environment gh serverURL w :
  unset_or_empty w "ACTIONS_ID_TOKEN_REQUEST_URL"
  \/ unset_or_empty w "ACTIONS_ID_TOKEN_REQUEST_TOKEN" ->
  fst (Get url_Parse gh serverURL w) = ("", "", Some errCredentialsNotFound)
  /\ trace (snd (Get url_Parse gh serverURL w)) = trace w.
Proof.
  intros H. rewrite <- !getenv_empty in H.
  rewrite Get_returned, Get_trace.
  assert (fetch url_Parse w = MissingEnvironment) as ->.
  { unfold fetch. destruct H as [-> | ->]; cbn; [reflexivity|].
    now rewrite orb_true_r. }
  cbn. now rewrite app_nil_r.
Qed.

(** C4. The URL of the request that [Get] sends is the base URL B
    itself when the audience is unset or empty; for a non-empty
    audience A it is B, then "?" when B has no '?' and "&" when it has
    one, then "audience=" and the query-escaped A. *)
Theorem Get_request_URL gh serverURL w req res :
  exchanged w (snd (Get url_Parse gh serverURL w)) req res ->
  let B := getenv w "ACTIONS_ID_TOKEN_REQUEST_URL" in
  let A := getenv w "ACTIONS_ID_TOKEN_REQUEST_AUDIENCE" in
  (unset_or_empty w "ACTIONS_ID_TOKEN_REQUEST_AUDIENCE" -> URL req = B)
  /\ (A <> "" -> ~ occurs "?"%char B ->
      URL req = B +:+ "?" +:+ "audience=" +:+ url.QueryEscape A)
  /\ (A <> "" -> occurs "?"%char B ->
      URL req = B +:+ "&" +:+ "audience=" +:+ url.QueryEscape A).
Proof.
  intros H B A. apply exchanged_fetch in H as [-> _].
  cbn [URL token_request]. unfold endpoint_URL. fold A B.
  repeat split.
  - intros E. apply getenv_empty in E. fold A in E. now rewrite E.
  - intros HA HB. apply String.eqb_neq in HA. rewrite HA.
    rewrite <- strings_Contains_byte in HB.
    now destruct (strings_Contains B "?").
  - intros HA HB. apply String.eqb_neq in HA. rewrite HA.
    rewrite <- strings_Contains_byte in HB. now rewrite HB.
Qed.

(** C5. When the response has a status other than 200, whatever its
    body, [Get] returns the CredentialsNotFound error, and the only
    network events of the call are the round trip and the closing of
    the body: the body is not read. *)
Theorem Get_non_OK_status gh serverURL w req resp :
  exchanged w (snd (Get url_Parse gh serverURL w)) req (inl resp) ->
  StatusCode resp <> StatusOK ->
  fst (Get url_Parse gh serverURL w) = ("", "", Some errCredentialsNotFound)
  /\ trace (snd (Get url_Parse gh serverURL w))
     = trace w ++ [RoundTrip req (inl resp); BodyClose (Body resp)].
Proof.
  intros H Hs. apply exchanged_fetch in H as (-> & _ & later & H).
  rewrite Get_returned, Get_trace.
  pose proof (fetch_inv w) as I.
  destruct (fetch url_Parse w); cbn in H; try discriminate;
    injection H as <- <- <-; cbn; try tauto.
Qed.

(** C6. Whatever the world, the error [Get] returns is nil or
    CredentialsNotFound; and it is CredentialsNotFound on each of the
    five failures: missing environment, request construction, network,
    status other than 200, decoding. *)
Theorem Get_error_kind gh serverURL w :
  let err := snd (fst (Get url_Parse gh serverURL w)) in
  (err = None \/ err = Some errCredentialsNotFound)
  /\ match fetch url_Parse w with
     | Fetched _ _ _ => err = None
     | MissingEnvironment | RequestConstructionFailure _ | NetworkFailure _ _
     | NonOKStatus _ _ | DecodeFailure _ _ _ =>
         IsErrCredentialsNotFound err = true
     end.
Proof.
  cbv zeta. rewrite Get_returned.
  destruct (fetch url_Parse w); cbn; auto.
Qed.

(** C7. [Add], [Delete] and [List] return a nil error on every input
    and change nothing but the log: the world they leave differs from
    the one they found in its sink only, so a [Get] or a [List] that
    follows returns what it would have returned before.  [List] gives
    the nil map, which has no entry. *)
Theorem no_op_operations gh creds serverURL w :
  (fst (Add gh creds w) = None
   /\ exists s, snd (Add gh creds w) = with_sink s w)
  /\ (fst (Delete gh serverURL w) = None
      /\ exists s, snd (Delete gh serverURL w) = with_sink s w)
  /\ (fst (List gh w) = (None, None)
      /\ len (fst (fst (List gh w))) = 0%nat
      /\ exists s, snd (List gh w) = with_sink s w)
  /\ forall gh' serverURL',
       fst (Get url_Parse gh' serverURL' (snd (Add gh creds w)))
         = fst (Get url_Parse gh' serverURL' w)
       /\ fst (Get url_Parse gh' serverURL' (snd (Delete gh serverURL w)))
         = fst (Get url_Parse gh' serverURL' w)
       /\ fst (Get url_Parse gh' serverURL' (snd (List gh w)))
         = fst (Get url_Parse gh' serverURL' w)
       /\ fst (List gh' (snd (Add gh creds w))) = (None, None)
       /\ fst (List gh' (snd (Delete gh serverURL w))) = (None, None).
Proof.
  destruct (Add_run gh creds w) as [sa Ea].
  destruct (Delete_run gh serverURL w) as [sd Ed].
  destruct (List_run gh w) as [sl El].
  rewrite Ea, Ed, El. cbn [fst snd len].
  repeat split; eauto.
  - now rewrite !Get_returned, fetch_with_sink.
  - now rewrite !Get_returned, fetch_with_sink.
  - now rewrite !Get_returned, fetch_with_sink.
  - destruct (List_run gh' (with_sink sa w)) as [s ->]. reflexivity.
  - destruct (List_run gh' (with_sink sd w)) as [s ->]. reflexivity.
Qed.

(** C8. With an endpoint that answers deterministically, a second
    [Get] (even through another helper value and for another registry
    URL) returns what the first returned; and in any world with the
    same three environment values and the same answer of the endpoint,
    [Get] returns the same. *)
Theorem Get_idempotent gh serverURL w :
  deterministic w ->
  (forall gh' serverURL',
     fst (Get url_Parse gh' serverURL' (snd (Get url_Parse gh serverURL w)))
     = fst (Get url_Parse gh serverURL w))
  /\ (forall gh' serverURL' w',
        getenv w' "ACTIONS_ID_TOKEN_REQUEST_URL"
          = getenv w "ACTIONS_ID_TOKEN_REQUEST_URL" ->
        getenv w' "ACTIONS_ID_TOKEN_REQUEST_TOKEN"
          = getenv w "ACTIONS_ID_TOKEN_REQUEST_TOKEN" ->
        getenv w' "ACTIONS_ID_TOKEN_REQUEST_AUDIENCE"
          = getenv w "ACTIONS_ID_TOKEN_REQUEST_AUDIENCE" ->
        (forall req, transport w' (trace w') req = transport w (trace w) req) ->
        fst (Get url_Parse gh' serverURL' w')
        = fst (Get url_Parse gh serverURL w)).
Proof.
  intros Hdet. split.
  - intros gh' serverURL'.
    destruct (Get_run gh serverURL w) as [s E]. rewrite E. cbn [fst snd].
    rewrite Get_returned, fetch_with_sink. f_equal.
    apply fetch_determined; try reflexivity.
    intros req. cbn. apply Hdet.
  - intros gh' serverURL' w' HU HT HA HX.
    rewrite !Get_returned. f_equal. now apply fetch_determined.
Qed.

(** C9. Each of the four operations returns the same value whatever the
    log sink is: a nil file, a closed file, a file whose writes fail
    or a working one, and whatever the clock says. *)
Theorem log_sink_not_observed gh gh' creds serverURL w s :
  fst (Add gh' creds (with_sink s w)) = fst (Add gh creds w)
  /\ fst (Delete gh' serverURL (with_sink s w)) = fst (Delete gh serverURL w)
  /\ fst (Get url_Parse gh' serverURL (with_sink s w))
     = fst (Get url_Parse gh serverURL w)
  /\ fst (List gh' (with_sink s w)) = fst (List gh w).
Proof.
  repeat split.
  - destruct (Add_run gh' creds (with_sink s w)) as [s1 ->].
    destruct (Add_run gh creds w) as [s2 ->]. reflexivity.
  - destruct (Delete_run gh' serverURL (with_sink s w)) as [s1 ->].
    destruct (Delete_run gh serverURL w) as [s2 ->]. reflexivity.
  - now rewrite !Get_returned, fetch_with_sink.
  - destruct (List_run gh' (with_sink s w)) as [s1 ->].
    destruct (List_run gh w) as [s2 ->]. reflexivity.
Qed.

(** C10. When [Get] returns an error, the user name and the secret it
    returns are both empty. *)
Theorem Get_failure_is_empty gh serverURL w username secret err :
  fst (Get url_Parse gh serverURL w) = (username, secret, err) ->
  err <> None ->
  username = "" /\ secret = "".
Proof.
  rewrite Get_returned.
  destruct (fetch url_Parse w); cbn; intros [= <- <- <-]; intros H;
    auto; now destruct H.
Qed.

(** After an exchange that answered 200, [Get] returns what [Decode]
    makes of the body. *)
Lemma Get_200 gh serverURL w req resp :
  exchanged w (snd (Get url_Parse gh serverURL w)) req (inl resp) ->
  StatusCode resp = StatusOK ->
  fst (Get url_Parse gh serverURL w)
  = match Decode (Body resp) {| Value := "" |} with
    | (v, None) => ("github_actions", Value v, None)
    | (_, Some _) => ("", "", Some errCredentialsNotFound)
    end.
Proof.
  intros H Hs. apply exchanged_fetch in H as (_ & _ & later & H).
  rewrite Get_returned. pose proof (fetch_inv w) as I.
  destruct (fetch url_Parse w) as [| | |rq rp|rq rp e|rq rp t];
    cbn in H; try discriminate; injection H as -> -> _.
  - tauto.
  - destruct I as (_ & _ & _ & I).
    destruct (Decode (Body resp) {| Value := "" |}) as [v [e'|]];
      [reflexivity | discriminate].
  - destruct I as (_ & _ & _ & ->). reflexivity.
Qed.

(** C1. When the exchange answers 200 with the body [{"value": "T"}],
    that is the object whose single member [value] is the JSON string
    for [T], a valid UTF-8 string (however the white space is laid out
    and whatever follows the object), [Get] returns the user name
    [github_actions], the secret [T] and a nil error.  An exchange takes
    place only when both required variables are non-empty. *)
Theorem Get_success gh serverURL w req resp ws1 ws2 ws3 ws4 T tail :
  exchanged w (snd (Get url_Parse gh serverURL w)) req (inl resp) ->
  StatusCode resp = StatusOK ->
  data (Body resp) = Text.token_object ws1 ws2 ws3 ws4 T +:+ tail ->
  Text.spaces ws1 = true -> Text.spaces ws2 = true ->
  Text.spaces ws3 = true -> Text.spaces ws4 = true ->
  utf8.ValidString T = true ->
  fst (Get url_Parse gh serverURL w) = ("github_actions", T, None).
Proof.
  intros H Hs Hb H1 H2 H3 H4 V.
  rewrite (Get_200 _ _ _ _ _ H Hs).
  destruct (Body resp) as [d f]. cbn [data] in Hb. subst d.
  now rewrite Decode_token_object.
Qed.

(** C2, as amended. When the exchange answers 200 and the first JSON
    value of the body is one the decoder refuses (a top-level array,
    string, number or boolean, or an object in which a member named
    [value], in any letter case, holds a number, a boolean, an array or
    an object), [Get] returns the CredentialsNotFound error. *)
Theorem Get_refused_body gh serverURL w req resp j rest :
  exchanged w (snd (Get url_Parse gh serverURL w)) req (inl resp) ->
  StatusCode resp = StatusOK ->
  json.first_value (data (Body resp)) = json.Scanned j rest ->
  refused j = true ->
  fst (Get url_Parse gh serverURL w) = ("", "", Some errCredentialsNotFound).
Proof.
  intros H Hs E R. rewrite (Get_200 _ _ _ _ _ H Hs).
  pose proof (Decode_refused (Body resp) {| Value := "" |} j rest E R) as D.
  destruct (Decode (Body resp) {| Value := "" |}) as [v [e|]];
    [reflexivity | now destruct D].
Qed.

(** What [Get] accepts: a first value that is not refused, on a stream
    that ends cleanly, gives the user name and the stored value. *)
Lemma Get_accepted_body gh serverURL w req resp j rest :
  exchanged w (snd (Get url_Parse gh serverURL w)) req (inl resp) ->
  StatusCode resp = StatusOK ->
  json.first_value (data (Body resp)) = json.Scanned j rest ->
  refused j = false ->
  fault (Body resp) = None ->
  fst (Get url_Parse gh serverURL w)
  = ("github_actions", Value (fst (unmarshal j {| Value := "" |})), None).
Proof.
  intros H Hs E R F. rewrite (Get_200 _ _ _ _ _ H Hs).
  destruct (Decode_accepted (Body resp) {| Value := "" |} j rest E R F)
    as [-> U].
  destruct (unmarshal j {| Value := "" |}) as [v e]. cbn in U. now subst e.
Qed.

(** The success of the specification read to the letter: for a token of
    plain bytes, the body is the text [{"value": "T"}] itself. *)
Lemma Get_plain_token gh serverURL w req resp T :
  exchanged w (snd (Get url_Parse gh serverURL w)) req (inl resp) ->
  StatusCode resp = StatusOK ->
  data (Body resp)
  = "{" +:+ Text.dq +:+ "value" +:+ Text.dq +:+ ": "
        +:+ Text.dq +:+ T +:+ Text.dq +:+ "}" ->
  Text.plain T = true ->
  fst (Get url_Parse gh serverURL w) = ("github_actions", T, None).
Proof.
  intros H Hs Hb P. rewrite (Get_200 _ _ _ _ _ H Hs).
  rewrite <- (token_response_plain T P) in Hb.
  destruct (Body resp) as [d f]. cbn [data] in Hb. subst d.
  rewrite <- (append_nil_r (Text.token_response T)).
  unfold Text.token_response.
  now rewrite Decode_token_object by (reflexivity || now apply ValidString_plain).
Qed.

End Run.

(** ** Concrete runs *)

Example QueryEscape_registry :
  url.QueryEscape "https://registry.example.com/a b?x=1&y=~"
  = "https%3A%2F%2Fregistry.example.com%2Fa+b%3Fx%3D1%26y%3D~".
Proof. reflexivity. Qed.

Example first_value_nested :
  json.first_value
    ("  {" +:+ Text.literal "a" +:+ ": [1, -2.5e+3, true, null, {}]} tail")
  = json.Scanned
      (json.Object
         [("a", json.Array [json.Number "1"; json.Number "-2.5e+3";
                            json.Bool true; json.Null; json.Object []])])
      " tail".
Proof. vm_compute. reflexivity. Qed.

(** Escapes are decoded, a surrogate pair becomes one rune and a byte
    that is not UTF-8 becomes U+FFFD. *)
Example first_value_unquote :
  json.first_value
    (Text.dq +:+ "é\n😀" +:+ String (byte 0xFF) "" +:+ Text.dq)
  = json.Scanned
      (json.Str
         (String (byte 0xC3) (String (byte 0xA9) (String (byte 0x0A)
         (String (byte 0xF0) (String (byte 0x9F) (String (byte 0x98)
         (String (byte 0x80)
         (String (byte 0xEF) (String (byte 0xBF) (String (byte 0xBD) "")))))))))))
      "".
Proof. vm_compute. reflexivity. Qed.

(** Brackets left open end in [Short], not in [Exhausted]. *)
Example first_value_open_brackets : json.first_value "[[[[[[" = json.Short.
Proof. vm_compute. reflexivity. Qed.

(** What [Decode] makes of some bodies: a later member wins and [null]
    stores nothing; the key is matched without regard to case; bytes
    after the first value are not read; the first type error is kept. *)
Example Decode_duplicate_null :
  Decode {| data := "{" +:+ Text.literal "value" +:+ ":" +:+ Text.literal "a"
                      +:+ "," +:+ Text.literal "value" +:+ ":null}";
            fault := None |} {| Value := "" |}
  = ({| Value := "a" |}, None).
Proof. vm_compute. reflexivity. Qed.

Example Decode_upper_case_key :
  Decode {| data := "{" +:+ Text.literal "VALUE" +:+ ":" +:+ Text.literal "x"
                      +:+ "}";
            fault := None |} {| Value := "" |}
  = ({| Value := "x" |}, None).
Proof. vm_compute. reflexivity. Qed.

Example Decode_null_then_garbage :
  Decode {| data := "nullx"; fault := None |} {| Value := "" |}
  = ({| Value := "" |}, None).
Proof. vm_compute. reflexivity. Qed.

Example Decode_number_then_string :
  Decode {| data := "{" +:+ Text.literal "value" +:+ ":1,"
                      +:+ Text.literal "value" +:+ ":" +:+ Text.literal "x"
                      +:+ "}";
            fault := None |} {| Value := "" |}
  = ({| Value := "x" |}, Some (json_UnmarshalTypeError "number")).
Proof. vm_compute. reflexivity. Qed.

Example Decode_not_json :
  Decode {| data := "invalid json"; fault := None |} {| Value := "" |}
  = ({| Value := "" |}, Some json_SyntaxError).
Proof. vm_compute. reflexivity. Qed.

Example Decode_empty :
  Decode {| data := ""; fault := None |} {| Value := "" |}
  = ({| Value := "" |}, Some io_EOF).
Proof. vm_compute. reflexivity. Qed.

(** The log of a successful fetch. *)
Example Get_log :
  disk (snd (Get Scenario.url_Parse Scenario.helper Scenario.registry
               Scenario.world_token)) !! 3%nat
  = Some ("2024-05-01T10:00:00Z: Getting OIDC token: https://registry.example.com"
            +:+ LF +:+
          "2024-05-01T10:00:01Z: Successfully retrieved OIDC token: "
            +:+ Scenario.token +:+ LF).
Proof. vm_compute. reflexivity. Qed.

(** Witness of C1: the mock server of the tests. *)
Lemma Get_success_witness :
  fst (Get Scenario.url_Parse Scenario.helper Scenario.registry
         Scenario.world_token)
  = ("github_actions", Scenario.token, None).
Proof.
  apply (Get_success Scenario.url_Parse Scenario.helper Scenario.registry
           Scenario.world_token (token_request Scenario.world_token)
           (Scenario.response 200 (Text.token_response Scenario.token))
           "" "" " " "" Scenario.token "").
  - exists [BodyRead (Body (Scenario.response 200
                              (Text.token_response Scenario.token)));
            BodyClose (Body (Scenario.response 200
                               (Text.token_response Scenario.token)))].
    vm_compute. reflexivity.
  - reflexivity.
  - vm_compute. reflexivity.
  - reflexivity.
  - reflexivity.
  - reflexivity.
  - reflexivity.
  - vm_compute. reflexivity.
Defined.

(** Counterexample to C2 as stated: a 200 response whose body, [{}], is
    valid JSON and is not an object with the single string member
    [value]; [Get] returns the user name with an empty secret and a nil
    error, not CredentialsNotFound. *)
Lemma Get_accepts_object_without_value :
  let w := Scenario.world_empty_object in
  let r := Get Scenario.url_Parse Scenario.helper Scenario.registry w in
  exchanged w (snd r) (token_request w) (Scenario.reply 200 "{}")
  /\ json.first_value "{}" = json.Scanned (json.Object []) ""
  /\ single_field (json.Object []) = false
  /\ fst r = ("github_actions", "", None)
  /\ fst r <> ("", "", Some errCredentialsNotFound).
Proof.
  cbv zeta. split; [|split; [|split; [|split]]].
  - exists [BodyRead (Body (Scenario.response 200 "{}"));
            BodyClose (Body (Scenario.response 200 "{}"))].
    vm_compute. reflexivity.
  - vm_compute. reflexivity.
  - reflexivity.
  - vm_compute. reflexivity.
  - vm_compute. discriminate.
Qed.

(** Witness of C2 as amended: the member [value] holds a number. *)
Lemma Get_refused_body_witness :
  fst (Get Scenario.url_Parse Scenario.helper Scenario.registry
         Scenario.world_number)
  = ("", "", Some errCredentialsNotFound).
Proof.
  apply (Get_refused_body Scenario.url_Parse Scenario.helper Scenario.registry
           Scenario.world_number (token_request Scenario.world_number)
           (Scenario.response 200 ("{" +:+ Text.literal "value" +:+ ": 123}"))
           (json.Object [("value", json.Number "123")]) "").
  - exists [BodyRead (Body (Scenario.response 200
                              ("{" +:+ Text.literal "value" +:+ ": 123}")));
            BodyClose (Body (Scenario.response 200
                               ("{" +:+ Text.literal "value" +:+ ": 123}")))].
    vm_compute. reflexivity.
  - reflexivity.
  - vm_compute. reflexivity.
  - reflexivity.
Defined.

(** Witness of C3: the request token is not set. *)
Lemma Get_missing_environment_witness :
  fst (Get Scenario.url_Parse Scenario.helper Scenario.registry
         Scenario.world_no_token)
  = ("", "", Some errCredentialsNotFound)
  /\ trace (snd (Get Scenario.url_Parse Scenario.helper Scenario.registry
                   Scenario.world_no_token))
     = trace Scenario.world_no_token.
Proof.
  apply (Get_missing_environment Scenario.url_Parse Scenario.helper
           Scenario.registry Scenario.world_no_token).
  right. left. vm_compute. reflexivity.
Defined.

(** Witness of C4: a base URL with a query string and an audience. *)
Lemma Get_request_URL_witness :
  URL (token_request Scenario.world_query_audience)
  = "https://example.com/token?api-version=2.0" +:+ "&" +:+ "audience="
      +:+ url.QueryEscape "https://registry.example.com".
Proof.
  refine (proj2 (proj2
    (Get_request_URL Scenario.url_Parse Scenario.helper Scenario.registry
       Scenario.world_query_audience
       (token_request Scenario.world_query_audience)
       (Scenario.reply 200 (Text.token_response Scenario.token)) _)) _ _).
  - exists [BodyRead (Body (Scenario.response 200
                              (Text.token_response Scenario.token)));
            BodyClose (Body (Scenario.response 200
                               (Text.token_response Scenario.token)))].
    vm_compute. reflexivity.
  - vm_compute. discriminate.
  - apply strings_Contains_byte. vm_compute. reflexivity.
Defined.

(** Witness of C5: the endpoint answers 401. *)
Lemma Get_non_OK_status_witness :
  fst (Get Scenario.url_Parse Scenario.helper Scenario.registry
         Scenario.world_unauthorized)
  = ("", "", Some errCredentialsNotFound)
  /\ trace (snd (Get Scenario.url_Parse Scenario.helper Scenario.registry
                   Scenario.world_unauthorized))
     = trace Scenario.world_unauthorized
       ++ [RoundTrip (token_request Scenario.world_unauthorized)
             (inl (Scenario.response 401 "Unauthorized"));
           BodyClose (Body (Scenario.response 401 "Unauthorized"))].
Proof.
  apply (Get_non_OK_status Scenario.url_Parse Scenario.helper Scenario.registry
           Scenario.world_unauthorized).
  - exists [BodyClose (Body (Scenario.response 401 "Unauthorized"))].
    vm_compute. reflexivity.
  - discriminate.
Defined.

(** Witness of C8: two fetches in a row against the mock server, the
    second through a helper without a log file. *)
Lemma Get_idempotent_witness :
  fst (Get Scenario.url_Parse Scenario.helper_without_log Scenario.registry
         (snd (Get Scenario.url_Parse Scenario.helper Scenario.registry
                 Scenario.world_token)))
  = fst (Get Scenario.url_Parse Scenario.helper Scenario.registry
           Scenario.world_token).
Proof.
  apply (proj1 (Get_idempotent Scenario.url_Parse Scenario.helper
                  Scenario.registry Scenario.world_token
                  (fun h h' req => eq_refl))).
Defined.

(** Witness of C10: the failure for a missing token. *)
Lemma Get_failure_is_empty_witness :
  fst (fst (fst (Get Scenario.url_Parse Scenario.helper Scenario.registry
                   Scenario.world_no_token))) = ""
  /\ snd (fst (fst (Get Scenario.url_Parse Scenario.helper Scenario.registry
                      Scenario.world_no_token))) = "".
Proof.
  apply (Get_failure_is_empty Scenario.url_Parse Scenario.helper
           Scenario.registry Scenario.world_no_token _ _
           (Some errCredentialsNotFound)).
  - vm_compute. reflexivity.
  - discriminate.
Defined.

(** * The wire, the log and the decoder *)

(** ** The exchange *)

Lemma object_Value ms : forall st,
  Value (fst (object ms st)) = default (Value (fst st)) (chosen ms).
Proof.
  induction ms as [|[key v] ms IH]; intros st; cbn [object chosen].
  - reflexivity.
  - rewrite IH. destruct (chosen ms) as [x|]; [reflexivity|]. cbn [default].
    destruct (is_value_key key); [|reflexivity].
    destruct v; reflexivity.
Qed.

Section Wire.

Variable url_Parse : string -> option error.

(** X1. The request of the exchange is a GET that carries exactly two
    headers: [Authorization], the word Bearer and the request token as
    the environment gives it, and the helper's [User-Agent]. *)
Theorem Get_request_headers gh serverURL w req res :
  exchanged w (snd (Get url_Parse gh serverURL w)) req res ->
  Method req = "GET"
  /\ Header req !! "Authorization"
     = Some ["Bearer " +:+ getenv w "ACTIONS_ID_TOKEN_REQUEST_TOKEN"]
  /\ Header req !! "User-Agent"
     = Some ["Docker-Credential-Helper-GitHubActionsOIDC"]
  /\ forall key, key <> "Authorization" -> key <> "User-Agent" ->
                 Header req !! key = None.
Proof.
  intros H. apply (exchanged_fetch url_Parse) in H as [-> _].
  cbn [Method Header token_request].
  split; [reflexivity|]. split; [|split].
  - rewrite lookup_insert_ne by discriminate. apply lookup_insert_eq.
  - apply lookup_insert_eq.
  - intros key H1 H2. rewrite !lookup_insert_ne by congruence.
    apply lookup_empty.
Qed.


(** X3. Whenever the endpoint answered, with whatever status and body,
    [Get] closes the body of the response, and that is the last network
    event of the call; before it the body is read once when the status
    is 200 and not at all otherwise. *)
Theorem Get_closes_body gh serverURL w req resp :
  exchanged w (snd (Get url_Parse gh serverURL w)) req (inl resp) ->
  exists mid,
    trace (snd (Get url_Parse gh serverURL w))
    = trace w ++ RoundTrip req (inl resp) :: mid ++ [BodyClose (Body resp)]
    /\ (mid = [] \/ mid = [BodyRead (Body resp)])
    /\ (mid = [] <-> StatusCode resp <> StatusOK).
Proof.
  intros H. apply (exchanged_fetch url_Parse) in H as (_ & _ & later & H).
  rewrite Get_trace. pose proof (fetch_inv url_Parse w) as I.
  destruct (fetch url_Parse w) as [| | |rq rp|rq rp e|rq rp t];
    cbn in H; try discriminate; injection H as -> -> _; cbn [events].
  - exists []. intuition.
  - exists [BodyRead (Body resp)].
    destruct I as (_ & _ & I & _). intuition (try discriminate; auto).
  - exists [BodyRead (Body resp)].
    destruct I as (_ & _ & I & _). intuition (try discriminate; auto).
Qed.

(** X4. When [http.NewRequest] refuses the URL, [Get] returns the
    CredentialsNotFound error and nothing is sent. *)
Theorem Get_request_construction_failure gh serverURL w err :
  url_Parse (endpoint_URL w) = Some err ->
  fst (Get url_Parse gh serverURL w) = ("", "", Some errCredentialsNotFound)
  /\ trace (snd (Get url_Parse gh serverURL w)) = trace w.
Proof.
  intros H. rewrite Get_returned, Get_trace. unfold fetch. rewrite H.
  destruct (_ || _); cbn; now rewrite app_nil_r.
Qed.

(** X5. When the client's [Do] fails, [Get] returns the
    CredentialsNotFound error; the failed round trip is the only network
    event of the call: there is no body to read or close. *)
Theorem Get_network_failure gh serverURL w req err :
  exchanged w (snd (Get url_Parse gh serverURL w)) req (inr err) ->
  fst (Get url_Parse gh serverURL w) = ("", "", Some errCredentialsNotFound)
  /\ trace (snd (Get url_Parse gh serverURL w))
     = trace w ++ [RoundTrip req (inr err)].
Proof.
  intros H. apply (exchanged_fetch url_Parse) in H as (_ & _ & later & H).
  rewrite Get_returned, Get_trace.
  destruct (fetch url_Parse w); cbn in H; try discriminate.
  injection H as -> -> _. split; reflexivity.
Qed.

(** X6. A 200 response whose body does not begin with a complete JSON
    value (malformed, cut short or empty) gives the CredentialsNotFound
    error. *)
Theorem Get_malformed_body gh serverURL w req resp :
  exchanged w (snd (Get url_Parse gh serverURL w)) req (inl resp) ->
  StatusCode resp = StatusOK ->
  (forall j rest, json.first_value (data (Body resp)) <> json.Scanned j rest) ->
  fst (Get url_Parse gh serverURL w) = ("", "", Some errCredentialsNotFound).
Proof.
  intros H Hs Hm. rewrite (Get_200 url_Parse _ _ _ _ _ H Hs).
  unfold Decode.
  destruct (json.first_value (data (Body resp))) as [j rest| | |];
    [now destruct (Hm j rest) | reflexivity | | reflexivity].
  destruct (fault (Body resp)); reflexivity.
Qed.

(** X7. When the body is an object that the decoder does not refuse,
    the secret is the string of the last member named [value], in any
    letter case, that holds a string, and the empty string when there is
    none; other members and [null] values are passed over. *)
Theorem Get_last_value_wins gh serverURL w req resp ms rest :
  exchanged w (snd (Get url_Parse gh serverURL w)) req (inl resp) ->
  StatusCode resp = StatusOK ->
  json.first_value (data (Body resp)) = json.Scanned (json.Object ms) rest ->
  refused (json.Object ms) = false ->
  fst (Get url_Parse gh serverURL w)
  = ("github_actions", default "" (chosen ms), None).
Proof.
  intros H Hs E R. rewrite (Get_200 url_Parse _ _ _ _ _ H Hs).
  unfold Decode. rewrite E. cbn [self_delimited].
  assert (unmarshal (json.Object ms) {| Value := "" |}
          = ({| Value := default "" (chosen ms) |}, None)) as U.
  { pose proof (proj2 (unmarshal_error (json.Object ms) {| Value := "" |}) R) as N.
    pose proof (object_Value ms ({| Value := "" |}, None)) as V.
    cbn [unmarshal] in *. destruct (object ms _) as [[v] e].
    cbn in N, V. now subst. }
  destruct rest, (fault (Body resp)); now rewrite U.
Qed.

End Wire.

(** ** The text of the log *)

Lemma log_line_working {A} fd old (line : string -> string) (k : M A) w :
  disk w !! fd = Some old -> write_fails w (writes w) = false ->
  (now ← Now_RFC3339; _ ← WriteString (Some fd) (line now); k) w
  = k (written fd (line (clock w (ticks w))) w).
Proof.
  intros Hd Hf. unfold mbind, M_bind, Now_RFC3339, WriteString, written; cbn.
  rewrite Hd, Hf. reflexivity.
Qed.

Lemma disk_written fd text w :
  disk (written fd text w) !! fd = Some (default "" (disk w !! fd) +:+ text).
Proof. cbn. apply lookup_insert_eq. Qed.

Ltac working_step fd Hwf :=
  match goal with
  | |- context [mbind (fun now => mbind (fun _ => ?k) (WriteString (Some fd) (@?g now)))
                      Now_RFC3339 ?w] =>
      erewrite (log_line_working fd _ g k w);
      [ | cbn [disk written extend with_sink];
          rewrite ?lookup_insert_eq; first [eassumption | reflexivity]
        | cbn [write_fails written extend]; apply Hwf ]
  end.

Section Log.

Variable url_Parse : string -> option error.

Lemma Add_written gh creds w fd old :
  working gh w fd old ->
  Add gh creds w
  = (None, written fd (clock w (ticks w) +:+ ": Adding credentials for server: "
                         +:+ ServerURL creds +:+ LF) w).
Proof.
  intros (Hl & Hd & Hwf). unfold Add. rewrite Hl. now working_step fd Hwf.
Qed.

Lemma Delete_written gh serverURL w fd old :
  working gh w fd old ->
  Delete gh serverURL w
  = (None, written fd (clock w (ticks w) +:+ ": Deleting credentials for server: "
                         +:+ serverURL +:+ LF) w).
Proof.
  intros (Hl & Hd & Hwf). unfold Delete. rewrite Hl. now working_step fd Hwf.
Qed.

Lemma List_written gh w fd old :
  working gh w fd old ->
  List gh w
  = ((None, None),
     written fd (clock w (ticks w) +:+ ": Listing credentials" +:+ LF) w).
Proof.
  intros (Hl & Hd & Hwf). unfold List. rewrite Hl. now working_step fd Hwf.
Qed.



(** X9. With a log file that takes every write, [Add], [Delete] and
    [List] each append one stamped line: the server URL of the
    credentials, the server URL, and a fixed text.  The line of [Add] is
    made of the clock reading and the server URL alone. *)
Theorem no_op_log_text gh creds serverURL w fd old :
  working gh w fd old ->
  disk (snd (Add gh creds w)) !! fd
  = Some (old +:+ stamped (clock w) (ticks w)
                    ["Adding credentials for server: " +:+ ServerURL creds])
  /\ disk (snd (Delete gh serverURL w)) !! fd
     = Some (old +:+ stamped (clock w) (ticks w)
                       ["Deleting credentials for server: " +:+ serverURL])
  /\ disk (snd (List gh w)) !! fd
     = Some (old +:+ stamped (clock w) (ticks w) ["Listing credentials"]).
Proof.
  intros Hw. pose proof Hw as (Hl & Hd & Hwf).
  rewrite (Add_written _ _ _ _ _ Hw), (Delete_written _ _ _ _ _ Hw),
    (List_written _ _ _ _ Hw).
  cbn [snd stamped]. rewrite !disk_written, Hd. cbn [default from_option id].
  repeat split; f_equal; rewrite ?append_nil_r, ?append_assoc; reflexivity.
Qed.

End Log.

(** ** Only the log file grows *)

Lemma only_appended_refl gh w : only_appended gh w w.
Proof. intros fd. now left. Qed.

Lemma only_appended_trans gh w1 w2 w3 :
  only_appended gh w1 w2 -> only_appended gh w2 w3 -> only_appended gh w1 w3.
Proof.
  intros H12 H23 fd.
  destruct (H12 fd) as [E12|(Hl & old & more & Ho & Hn)],
           (H23 fd) as [E23|(Hl' & old' & more' & Ho' & Hn')].
  - left. congruence.
  - right. split; [assumption|]. exists old', more'. split; congruence.
  - right. split; [assumption|]. exists old, more. split; congruence.
  - right. split; [assumption|]. exists old, (more +:+ more').
    split; [assumption|].
    rewrite Hn', <- append_assoc. congruence.
Qed.

Lemma preserves_ret {A} gh (a : A) : preserves (only_appended gh) (mret a).
Proof. intros w. apply only_appended_refl. Qed.

Lemma preserves_bind {A B} gh (m : M A) (k : A -> M B) :
  preserves (only_appended gh) m ->
  (forall a, preserves (only_appended gh) (k a)) ->
  preserves (only_appended gh) (m ≫= k).
Proof.
  intros Hm Hk w. rewrite bind_run. specialize (Hm w).
  destruct (m w) as [a w1]. eapply only_appended_trans; [exact Hm|apply Hk].
Qed.

Lemma preserves_Now gh : preserves (only_appended gh) Now_RFC3339.
Proof. intros w fd. now left. Qed.

Lemma preserves_Getenv gh key : preserves (only_appended gh) (os_Getenv key).
Proof. intros w fd. now left. Qed.

Lemma preserves_record gh e : preserves (only_appended gh) (record e).
Proof. intros w fd. now left. Qed.

Lemma preserves_Client_Do gh req : preserves (only_appended gh) (Client_Do req).
Proof. intros w fd. now left. Qed.

Lemma preserves_WriteString gh text :
  preserves (only_appended gh) (WriteString (LogFile gh) text).
Proof.
  intros w fd. unfold WriteString.
  destruct (LogFile gh) as [fd0|] eqn:Hl; [|now left].
  destruct (disk w !! fd0) as [old|] eqn:Hd; [|now left].
  cbn [snd disk]. destruct (write_fails w (writes w)); [now left|].
  destruct (decide (fd0 = fd)) as [->|Hne].
  - right. split; [reflexivity|]. exists old, text.
    split; [assumption | apply lookup_insert_eq].
  - left. now apply lookup_insert_ne.
Qed.

Ltac preserved :=
  repeat first
    [ apply preserves_ret | apply preserves_Now | apply preserves_Getenv
    | apply preserves_WriteString | apply preserves_record
    | apply preserves_Client_Do
    | apply preserves_bind; [|intros]
    | match goal with
      | |- preserves _ (if ?b then _ else _) => destruct b
      | |- preserves _ (match ?x with _ => _ end) => destruct x
      end ].

Section Appended.

Variable url_Parse : string -> option error.

(** X10. No operation writes a file other than the helper's log file,
    and the log file only grows at its end: what it held before is a
    prefix of what it holds after. *)
Theorem log_only_appended gh creds serverURL w :
  only_appended gh w (snd (Add gh creds w))
  /\ only_appended gh w (snd (Delete gh serverURL w))
  /\ only_appended gh w (snd (Get url_Parse gh serverURL w))
  /\ only_appended gh w (snd (List gh w)).
Proof.
  assert (preserves (only_appended gh) (Add gh creds)) as HA
      by (unfold Add; preserved).
  assert (preserves (only_appended gh) (Delete gh serverURL)) as HD
      by (unfold Delete; preserved).
  assert (preserves (only_appended gh) (List gh)) as HL
      by (unfold List; preserved).
  assert (preserves (only_appended gh) (Get url_Parse gh serverURL)) as HG.
  { unfold Get, defer, Body_Close, Decoder_Decode. preserved. }
  repeat split; [apply HA | apply HD | apply HG | apply HL].
Qed.

End Appended.

(** ** The audience in the query *)



Lemma every_append p s t : every p (s +:+ t) = every p s && every p t.
Proof.
  induction s as [|c s IH]; [reflexivity|].
  rewrite append_cons. cbn [every]. now rewrite IH, andb_assoc.
Qed.

Lemma escape_byte_safe c : every query_safe (url.escape_byte c) = true.
Proof. destruct c as [[] [] [] [] [] [] [] []]; reflexivity. Qed.

(** X11. What [QueryEscape] makes of the audience holds only letters,
    digits and the bytes [- _ . ~ % +]: no [&], [=], [?], [#], [/],
    space or control byte of the audience reaches the URL unescaped. *)
Theorem QueryEscape_safe s : every query_safe (url.QueryEscape s) = true.
Proof.
  induction s as [|d s IH]; [reflexivity|].
  cbn [url.QueryEscape]. now rewrite every_append, escape_byte_safe, IH.
Qed.

(** ** The secret is valid UTF-8 *)

Lemma forall_bits_sound k : forall p,
  forall_bits k p = true -> forall n, n < 2 ^ N.of_nat k -> p n = true.
Proof.
  induction k as [|k IH]; intros p H n Hn.
  - cbn in Hn. assert (n = 0) as -> by lia. exact H.
  - cbn [forall_bits] in H. apply andb_true_iff in H as [H0 H1].
    rewrite Nat2N.inj_succ, N.pow_succ_r' in Hn.
    destruct (N.even n) eqn:He.
    + apply N.even_spec in He as [m ->]. apply (IH _ H0). lia.
    + assert (N.odd n = true) as Ho by (rewrite <- N.negb_even, He; reflexivity).
      apply N.odd_spec in Ho as [m ->]. apply (IH _ H1). lia.
Qed.

Lemma EncodeRune_valid_small :
  forall_bits 16 (fun r => utf8.ValidString (utf8.EncodeRune r)) = true.
Proof. vm_cast_no_check (eq_refl true). Qed.

Lemma lead4_holds :
  forall_bits 9 (fun h => negb ((0x10 <=? h) && (h <=? 0x10F)) || lead4 h) = true.
Proof. vm_cast_no_check (eq_refl true). Qed.

Lemma cont_holds :
  forall_bits 6 (fun x => utf8.cont (byte (N.lor 0x80 x))) = true.
Proof. vm_cast_no_check (eq_refl true). Qed.

Lemma cont_encoded x : utf8.cont (byte (N.lor 0x80 (N.land x 0x3F))) = true.
Proof.
  apply (forall_bits_sound 6 _ cont_holds).
  change 0x3F with (N.ones 6). rewrite N.land_ones.
  apply N.mod_lt. discriminate.
Qed.

Lemma EncodeRune_valid r : utf8.ValidString (utf8.EncodeRune r) = true.
Proof.
  destruct (N.ltb_spec r (2 ^ 16)) as [Hs|Hl].
  { exact (forall_bits_sound 16 _ EncodeRune_valid_small r Hs). }
  change (2 ^ 16) with 65536 in Hl.
  unfold utf8.EncodeRune.
  destruct (N.leb_spec r 0x7F); [lia|].
  destruct (N.leb_spec r 0x7FF); [lia|].
  destruct (N.ltb_spec utf8.MaxRune r) as [Hm|Hm]; [reflexivity|].
  unfold utf8.MaxRune in Hm.
  destruct (N.leb_spec 0xD800 r); [|lia].
  destruct (N.leb_spec r 0xDFFF); [lia|].
  destruct (N.leb_spec r 0xFFFF); [lia|].
  cbn [orb andb].
  pose proof (forall_bits_sound 9 _ lead4_holds (N.shiftr r 12)) as Hh.
  assert (0x10 <= N.shiftr r 12 <= 0x10F) as [Hlo Hhi].
  { rewrite N.shiftr_div_pow2. change (2 ^ 12) with 4096. split.
    - apply N.div_le_lower_bound; lia.
    - apply N.lt_succ_r. apply N.Div0.div_lt_upper_bound; lia. }
  cbv beta in Hh.
  rewrite (proj2 (N.leb_le _ _) Hlo), (proj2 (N.leb_le _ _) Hhi) in Hh.
  cbn [andb negb orb] in Hh.
  specialize (Hh ltac:(change (2 ^ N.of_nat 9) with 512; lia)).
  unfold lead4 in Hh. rewrite N.shiftr_shiftr in Hh.
  change (12 + 6) with 18 in Hh.
  apply andb_true_iff in Hh as [Hb0 Hb1].
  apply negb_true_iff in Hb0.
  cbn [utf8.ValidString]. rewrite Hb0.
  destruct (utf8.first _) as [[[sz lo] hi]|]; [|discriminate].
  do 4 (destruct sz as [|sz]; try discriminate).
  destruct sz; [|discriminate].
  rewrite Hb1, !cont_encoded. reflexivity.
Qed.

Lemma ValidString_append a : forall b,
  utf8.ValidString a = true ->
  utf8.ValidString (a +:+ b) = utf8.ValidString b.
Proof.
  remember (String.length a) as n eqn:Hn.
  revert a Hn. induction n as [n IH] using lt_wf_ind. intros a Hn b Ha.
  assert (forall a', (String.length a' < n)%nat -> utf8.ValidString a' = true ->
            utf8.ValidString (a' +:+ b) = utf8.ValidString b) as IH'.
  { intros a' Hlt Hv. exact (IH _ Hlt a' eq_refl b Hv). }
  clear IH. subst n.
  destruct a as [|p0 a]; [now rewrite append_nil_l|].
  rewrite append_cons. cbn [utf8.ValidString] in Ha |- *.
  destruct (code p0 <? 0x80).
  { apply IH'; [cbn; lia|exact Ha]. }
  destruct (utf8.first (code p0)) as [[[sz lo] hi]|]; [|discriminate].
  destruct a as [|b1 a]; [discriminate|].
  rewrite append_cons. apply andb_true_iff in Ha as [-> Ha]. cbn [andb].
  destruct (sz <=? 2)%nat.
  { apply IH'; [cbn; lia|exact Ha]. }
  destruct a as [|b2 a]; [discriminate|].
  rewrite append_cons. apply andb_true_iff in Ha as [-> Ha]. cbn [andb].
  destruct (sz <=? 3)%nat.
  { apply IH'; [cbn; lia|exact Ha]. }
  destruct a as [|b3 a]; [discriminate|].
  rewrite append_cons. apply andb_true_iff in Ha as [-> Ha]. cbn [andb].
  apply IH'; [cbn; lia|exact Ha].
Qed.

Lemma ValidString_ascii c : (code c <? 0x80) = true -> utf8.ValidString (String c "") = true.
Proof. intros H. cbn [utf8.ValidString]. now rewrite H. Qed.

Lemma unicode_escape_valid s out rest :
  json.unicode_escape s = json.Bytes out rest -> utf8.ValidString out = true.
Proof.
  unfold json.unicode_escape.
  destruct (json.hexdigits 4 0 s) as [rr s'| | |]; try discriminate.
  destruct (utf16.IsSurrogate rr); [destruct (negb _)|];
    intros [= <- _]; apply EncodeRune_valid.
Qed.

Lemma escape_valid s out rest :
  json.escape s = json.Bytes out rest -> utf8.ValidString out = true.
Proof.
  unfold json.escape. destruct s as [|e s']; [discriminate|].
  destruct (_ || _) eqn:He.
  { intros [= <- _]. apply ValidString_ascii.
    rewrite !orb_true_iff, !N.eqb_eq in He.
    destruct He as [[-> | ->] | ->]; reflexivity. }
  destruct (code e =? 0x62); [intros [= <- _]; reflexivity|].
  destruct (code e =? 0x66); [intros [= <- _]; reflexivity|].
  destruct (code e =? 0x6E); [intros [= <- _]; reflexivity|].
  destruct (code e =? 0x72); [intros [= <- _]; reflexivity|].
  destruct (code e =? 0x74); [intros [= <- _]; reflexivity|].
  destruct (code e =? 0x75); [apply unicode_escape_valid|discriminate].
Qed.

Lemma string_step_valid s out rest :
  json.string_step s = json.Bytes out rest -> utf8.ValidString out = true.
Proof.
  unfold json.string_step. destruct s as [|c s']; [discriminate|].
  destruct (code c =? 0x22); [discriminate|].
  destruct (code c =? 0x5C); [apply escape_valid|].
  destruct (code c <? 0x20); [discriminate|].
  destruct (code c <? 0x80) eqn:Hc.
  { intros [= <- _]. now apply ValidString_ascii. }
  destruct (utf8.DecodeRune _) as [rr size].
  intros [= <- _]. apply EncodeRune_valid.
Qed.

Lemma string_body_valid fuel : forall s x rest,
  json.string_body fuel s = json.Scanned x rest -> utf8.ValidString x = true.
Proof.
  induction fuel as [|fuel IH]; intros s x rest; [discriminate|].
  cbn [json.string_body].
  destruct (json.string_step s) as [out r|r| |] eqn:Hs; try discriminate.
  - destruct (json.string_body fuel r) as [t r'| | |] eqn:Hb; try discriminate.
    cbn [json.and_then]. intros [= <- _].
    rewrite (ValidString_append _ _ (string_step_valid _ _ _ Hs)).
    exact (IH _ _ _ Hb).
  - intros [= <- _]. reflexivity.
Qed.

Lemma value_Str_valid fuel depth s x rest :
  json.value fuel depth s = json.Scanned (json.Str x) rest ->
  utf8.ValidString x = true.
Proof.
  destruct fuel as [|fuel]; [discriminate|]. cbn [json.value].
  destruct (json.skip_space s) as [|c s1]; [discriminate|].
  repeat match goal with
  | |- context [if ?b then _ else _] => destruct b
  | |- context [match json.skip_space ?x with _ => _ end] =>
      destruct (json.skip_space x)
  | |- json.and_then ?m _ = _ -> _ =>
      let H := fresh "H" in
      destruct m eqn:H; cbn [json.and_then]
  end; try discriminate.
  intros [= <- _]. eauto using string_body_valid.
Qed.

Lemma members_valid fuel : forall depth s ms rest key x,
  json.members fuel depth s = json.Scanned ms rest ->
  In (key, json.Str x) ms -> utf8.ValidString x = true.
Proof.
  induction fuel as [|fuel IH]; intros depth s ms rest key x; [discriminate|].
  cbn [json.members].
  destruct (json.skip_space s) as [|c s1]; [discriminate|].
  destruct (code c =? 0x22); [|discriminate].
  destruct (json.string_body fuel s1) as [k s2| | |]; try discriminate.
  cbn [json.and_then].
  destruct (json.skip_space s2) as [|c2 s3]; [discriminate|].
  destruct (code c2 =? 0x3A); [|discriminate].
  destruct (json.value fuel depth s3) as [v s4| | |] eqn:Hv; try discriminate.
  cbn [json.and_then].
  destruct (json.skip_space s4) as [|c4 s5]; [discriminate|].
  destruct (code c4 =? 0x2C).
  - destruct (json.members fuel depth s5) as [ms' r| | |] eqn:Hm; try discriminate.
    cbn [json.and_then]. intros [= <- _] [[= _ ->]|Hin].
    + exact (value_Str_valid _ _ _ _ _ Hv).
    + exact (IH _ _ _ _ _ _ Hm Hin).
  - destruct (code c4 =? 0x7D); [|discriminate].
    intros [= <- _] [[= _ ->]|[]].
    exact (value_Str_valid _ _ _ _ _ Hv).
Qed.

Lemma chosen_In ms : forall x,
  chosen ms = Some x -> exists key, In (key, json.Str x) ms.
Proof.
  induction ms as [|[key v] ms IH]; intros x; [discriminate|].
  cbn [chosen]. destruct (chosen ms) as [y|].
  - intros [= ->]. destruct (IH _ eq_refl) as [k Hk]. exists k. now right.
  - destruct (is_value_key key); [|discriminate].
    destruct v; try discriminate. intros [= ->]. exists key. now left.
Qed.

Lemma first_value_valid s ms rest x :
  json.first_value s = json.Scanned (json.Object ms) rest ->
  chosen ms = Some x -> utf8.ValidString x = true.
Proof.
  unfold json.first_value. cbn [json.value].
  destruct (json.skip_space s) as [|c s1]; [discriminate|].
  intros H Hc. apply chosen_In in Hc as [key Hin]. revert H.
  destruct (code c =? 0x7B).
  { destruct (_ <? _); [|discriminate].
    destruct (json.skip_space s1) as [|c1 s2]; [discriminate|].
    destruct (code c1 =? 0x7D); [intros [= <- _]; destruct Hin|].
    destruct (json.members _ _ _) as [ms' r| | |] eqn:Hm; try discriminate.
    cbn [json.and_then]. intros [= <- _].
    exact (members_valid _ _ _ _ _ _ _ Hm Hin). }
  repeat match goal with
  | |- context [if ?b then _ else _] => destruct b
  | |- context [match json.skip_space ?x with _ => _ end] =>
      destruct (json.skip_space x)
  | |- json.and_then ?m _ = _ -> _ =>
      let H := fresh "H" in
      destruct m eqn:H; cbn [json.and_then]
  end; discriminate.
Qed.

Lemma Decode_valid body v v' :
  Decode body v = (v', None) ->
  utf8.ValidString (Value v) = true -> utf8.ValidString (Value v') = true.
Proof.
  unfold Decode.
  destruct (json.first_value (data body)) as [j rest| | |] eqn:Hj.
  - assert (unmarshal j v = (v', None) -> utf8.ValidString (Value v) = true ->
            utf8.ValidString (Value v') = true) as Hu.
    { destruct j as [| | | | |ms]; cbn [unmarshal]; try discriminate.
      - now intros [= <-].
      - intros H Hv. pose proof (object_Value ms (v, None)) as Ho.
        rewrite H in Ho. cbn [fst] in Ho. rewrite Ho.
        destruct (chosen ms) as [x|] eqn:Hc; cbn [default from_option id]; [|exact Hv].
        exact (first_value_valid _ _ _ _ Hj Hc). }
    destruct rest, (self_delimited j), (fault body); try exact Hu; discriminate.
  - discriminate.
  - destruct (fault body); discriminate.
  - discriminate.
Qed.

Section Valid.

Variable url_Parse : string -> option error.

(** X13. Whatever the endpoint sends, the user name and the secret
    that [Get] returns are valid UTF-8: the decoder replaces every byte
    sequence and every escape that is not by U+FFFD. *)
Theorem Get_valid_UTF8 gh serverURL w :
  utf8.ValidString (fst (fst (fst (Get url_Parse gh serverURL w)))) = true
  /\ utf8.ValidString (snd (fst (fst (Get url_Parse gh serverURL w)))) = true.
Proof.
  rewrite Get_returned. unfold fetch.
  repeat match goal with
  | |- context [if ?b then _ else _] => destruct b
  | |- context [match url_Parse ?x with _ => _ end] => destruct (url_Parse x)
  | |- context [match transport ?a ?b ?c with _ => _ end] =>
      destruct (transport a b c)
  end; try (split; reflexivity).
  destruct (Decode _ _) as [v [err|]] eqn:Hd; [split; reflexivity|].
  split; [reflexivity|]. cbn [returned fst snd].
  exact (Decode_valid _ _ _ Hd eq_refl).
Qed.

End Valid.

(** ** The scanner does not look past the value it delimits *)

Lemma skip_space_extend s c s1 t :
  json.skip_space s = String c s1 ->
  json.skip_space (s +:+ t) = String c (s1 +:+ t).
Proof.
  induction s as [|d s IH]; cbn [json.skip_space]; [discriminate|].
  rewrite append_cons. cbn [json.skip_space].
  destruct (json.isSpace d); [exact IH|].
  intros [= -> ->]. reflexivity.
Qed.

Lemma expect_extend lit : forall s r t,
  json.expect lit s = json.Scanned tt r ->
  json.expect lit (s +:+ t) = json.Scanned tt (r +:+ t).
Proof.
  induction lit as [|c lit IH]; intros s r t; cbn [json.expect].
  - now intros [= ->].
  - destruct s as [|d s]; [discriminate|].
    rewrite append_cons. destruct (Ascii.eqb c d); [apply IH|discriminate].
Qed.

Lemma digits_extend s t :
  json.digits s <> "" -> json.digits (s +:+ t) = json.digits s +:+ t.
Proof.
  induction s as [|c s IH]; cbn [json.digits]; [congruence|].
  rewrite append_cons. cbn [json.digits].
  destruct (json.isDigit c); [exact IH|].
  intros _. now rewrite append_cons.
Qed.

Lemma stateESign_extend s r t :
  json.stateESign s = json.Scanned tt r -> r <> "" ->
  json.stateESign (s +:+ t) = json.Scanned tt (r +:+ t).
Proof.
  destruct s as [|c s]; rewrite ?append_cons; cbn [json.stateESign]; [discriminate|].
  destruct (json.isDigit c); [|discriminate].
  intros [= <-] Hr. now rewrite digits_extend.
Qed.

Lemma stateE_extend s r t :
  json.stateE s = json.Scanned tt r -> r <> "" ->
  json.stateE (s +:+ t) = json.Scanned tt (r +:+ t).
Proof.
  destruct s as [|c s]; rewrite ?append_cons; cbn [json.stateE]; [discriminate|].
  destruct (_ || _); [apply stateESign_extend|].
  rewrite <- append_cons. apply stateESign_extend.
Qed.

Lemma stateDot0_extend s r t :
  json.stateDot0 s = json.Scanned tt r -> r <> "" ->
  json.stateDot0 (s +:+ t) = json.Scanned tt (r +:+ t).
Proof.
  destruct s as [|c s]; rewrite ?append_cons; cbn [json.stateDot0]; [intros [= <-]; congruence|].
  destruct (_ || _); [apply stateE_extend|].
  intros [= <-] _. now rewrite append_cons.
Qed.

Lemma stateDot_extend s r t :
  json.stateDot s = json.Scanned tt r -> r <> "" ->
  json.stateDot (s +:+ t) = json.Scanned tt (r +:+ t).
Proof.
  destruct s as [|c s]; rewrite ?append_cons; cbn [json.stateDot]; [discriminate|].
  destruct (json.isDigit c); [|discriminate].
  intros H Hr. rewrite digits_extend; [now apply stateDot0_extend|].
  intros He. rewrite He in H. cbn in H. congruence.
Qed.

Lemma state0_extend s r t :
  json.state0 s = json.Scanned tt r -> r <> "" ->
  json.state0 (s +:+ t) = json.Scanned tt (r +:+ t).
Proof.
  destruct s as [|c s]; rewrite ?append_cons; cbn [json.state0]; [intros [= <-]; congruence|].
  destruct (code c =? 0x2E); [apply stateDot_extend|].
  destruct (_ || _); [apply stateE_extend|].
  intros [= <-] _. now rewrite append_cons.
Qed.

Lemma stateNeg_extend s r t :
  json.stateNeg s = json.Scanned tt r -> r <> "" ->
  json.stateNeg (s +:+ t) = json.Scanned tt (r +:+ t).
Proof.
  destruct s as [|c s]; rewrite ?append_cons; cbn [json.stateNeg]; [discriminate|].
  destruct (code c =? 0x30); [apply state0_extend|].
  destruct (between _ _ c); [|discriminate].
  intros H Hr. rewrite digits_extend; [now apply state0_extend|].
  intros He. rewrite He in H. cbn in H. congruence.
Qed.

Lemma number_extend s r t :
  json.number s = json.Scanned tt r -> r <> "" ->
  json.number (s +:+ t) = json.Scanned tt (r +:+ t).
Proof.
  destruct s as [|c s]; rewrite ?append_cons; cbn [json.number]; [discriminate|].
  destruct (code c =? 0x2D); [apply stateNeg_extend|].
  rewrite <- append_cons. apply stateNeg_extend.
Qed.

Lemma take_append n : forall s t,
  (n <= String.length s)%nat -> take n (s +:+ t) = take n s.
Proof.
  induction n as [|n IH]; intros s t Hn; [reflexivity|].
  destruct s as [|c s]; cbn [String.length] in Hn; [lia|].
  rewrite append_cons. cbn [take]. rewrite IH; [reflexivity|lia].
Qed.

Lemma drop_append n : forall s t,
  (n <= String.length s)%nat -> drop n (s +:+ t) = drop n s +:+ t.
Proof.
  induction n as [|n IH]; intros s t Hn; [reflexivity|].
  destruct s as [|c s]; cbn [String.length] in Hn; [lia|].
  rewrite append_cons. cbn [drop]. apply IH. lia.
Qed.

Lemma consumed_extend s r t :
  (String.length r <= String.length s)%nat ->
  json.consumed (s +:+ t) (r +:+ t) = json.consumed s r.
Proof.
  intros H. unfold json.consumed. rewrite !length_append.
  replace (String.length s + String.length t - (String.length r + String.length t))%nat
    with (String.length s - String.length r)%nat by lia.
  apply take_append. lia.
Qed.

Lemma hexdigits_extend n : forall acc s v r t,
  json.hexdigits n acc s = json.Scanned v r ->
  json.hexdigits n acc (s +:+ t) = json.Scanned v (r +:+ t).
Proof.
  induction n as [|n IH]; intros acc s v r t; cbn [json.hexdigits].
  - now intros [= -> ->].
  - destruct s as [|c s]; [discriminate|].
    rewrite append_cons. destruct (json.unhex c); [apply IH|discriminate].
Qed.

Lemma hexdigits_Invalid_extend n : forall acc s t,
  json.hexdigits n acc s = json.Invalid ->
  json.hexdigits n acc (s +:+ t) = json.Invalid.
Proof.
  induction n as [|n IH]; intros acc s t; cbn [json.hexdigits]; [discriminate|].
  destruct s as [|c s]; [discriminate|].
  rewrite append_cons. destruct (json.unhex c); [apply IH|reflexivity].
Qed.

Lemma unhex_quote c : json.unhex c <> None -> c <> byte 0x22.
Proof. intros H ->. now apply H. Qed.

Lemma hexdigits_Short_quote n : forall acc s,
  json.hexdigits n acc s = json.Short -> ~ occurs (byte 0x22) s.
Proof.
  induction n as [|n IH]; intros acc s; cbn [json.hexdigits]; [discriminate|].
  destruct s as [|c s]; [intros _ []|].
  destruct (json.unhex c) eqn:Hc; [|discriminate].
  intros H [Hq|Hq]; [|exact (IH _ _ H Hq)].
  subst c. discriminate Hc.
Qed.

Lemma getu4_extend s r t :
  json.getu4 s = Some r -> json.getu4 (s +:+ t) = Some r.
Proof.
  destruct s as [|c0 [|c1 s]]; cbn [json.getu4]; try discriminate.
  rewrite !append_cons. cbn [json.getu4].
  destruct (_ && _); [|discriminate].
  destruct (json.hexdigits 4 0 s) as [v r'| | |] eqn:H; try discriminate.
  now rewrite (hexdigits_extend _ _ _ _ _ t H).
Qed.

Lemma getu4_length s r : json.getu4 s = Some r -> (6 <= String.length s)%nat.
Proof.
  destruct s as [|c0 [|c1 s]]; cbn [json.getu4]; try discriminate.
  destruct (_ && _); [|discriminate].
  destruct s as [|h0 [|h1 [|h2 [|h3 s]]]]; cbn [json.hexdigits];
    repeat match goal with
    | |- context [match json.unhex ?c with _ => _ end] => destruct (json.unhex c)
    end; try discriminate.
  intros _. cbn [String.length]. lia.
Qed.

Lemma getu4_None_extend s t :
  occurs (byte 0x22) s -> json.getu4 s = None -> json.getu4 (s +:+ t) = None.
Proof.
  destruct s as [|c0 [|c1 s]]; cbn [occurs]; [tauto| |].
  - intros [<-|[]] _. rewrite append_cons, append_nil_l.
    destruct t as [|c1 t]; reflexivity.
  - intros Hq. rewrite !append_cons. cbn [json.getu4].
    destruct (_ && _) eqn:Hc; [|reflexivity].
    apply andb_true_iff in Hc as [H0 H1].
    apply N.eqb_eq in H0, H1.
    destruct (json.hexdigits 4 0 s) as [v r'| | |] eqn:H; try discriminate.
    + now rewrite (hexdigits_Invalid_extend _ _ _ t H).
    + exfalso. destruct Hq as [<-|[<-|Hq]]; try discriminate.
      exact (hexdigits_Short_quote _ _ _ H Hq).
    + now destruct (hexdigits_not_exhausted 4 0 s).
Qed.

Lemma between_quote lo hi b :
  0x80 <= lo -> between lo hi b = true -> b <> byte 0x22.
Proof.
  intros Hlo H ->. unfold between in H. apply andb_true_iff in H as [H _].
  apply N.leb_le in H. change (code (byte 0x22)) with 0x22 in H. lia.
Qed.

Lemma DecodeRune_extend c s t rr size :
  (code c <? 0x80) = false ->
  utf8.DecodeRune (String c s) = (rr, size) ->
  occurs (byte 0x22) (drop size (String c s)) ->
  utf8.DecodeRune (String c s +:+ t) = (rr, size).
Proof.
  intros Hc. rewrite append_cons. unfold utf8.DecodeRune. rewrite Hc.
  destruct (utf8.first (code c)) as [[[sz lo] hi]|] eqn:Hf; [|tauto].
  apply first_range in Hf as [_ Hlo].
  destruct s as [|b1 s].
  { intros [= <- <-]. cbn [drop occurs]. tauto. }
  rewrite append_cons.
  destruct (between lo hi b1) eqn:H1; cbn [negb]; [|tauto].
  pose proof (between_quote _ _ _ Hlo H1) as Q1.
  destruct (sz <=? 2)%nat; [tauto|].
  destruct s as [|b2 s].
  { intros [= <- <-]. cbn [drop occurs]. intros [E|[]]. now destruct Q1. }
  rewrite append_cons.
  destruct (utf8.cont b2) eqn:H2; cbn [negb]; [|tauto].
  assert (b2 <> byte 0x22) as Q2 by (apply (between_quote 0x80 0xBF); [lia|exact H2]).
  destruct (sz <=? 3)%nat; [tauto|].
  destruct s as [|b3 s].
  { intros [= <- <-]. cbn [drop occurs]. intros [E|[E|[]]]; congruence. }
  rewrite append_cons. tauto.
Qed.

Lemma DecodeRune_width c s rr size :
  utf8.DecodeRune (String c s) = (rr, size) ->
  (size <= String.length (String c s))%nat.
Proof.
  unfold utf8.DecodeRune.
  repeat match goal with
         | |- context [match ?x with _ => _ end] => destruct x
         end; intros [= _ <-]; cbn [String.length]; lia.
Qed.

Lemma occurs_drop c n : forall s, occurs c (drop n s) -> occurs c s.
Proof.
  induction n as [|n IH]; intros [|d s]; cbn [drop occurs]; auto.
Qed.

Lemma unicode_escape_extend s out rest t :
  json.unicode_escape s = json.Bytes out rest ->
  occurs (byte 0x22) rest ->
  json.unicode_escape (s +:+ t) = json.Bytes out (rest +:+ t).
Proof.
  unfold json.unicode_escape.
  destruct (json.hexdigits 4 0 s) as [rr s'| | |] eqn:H; try discriminate.
  rewrite (hexdigits_extend _ _ _ _ _ t H).
  destruct (utf16.IsSurrogate rr); [|now intros [= <- <-]].
  destruct (json.getu4 s') as [r2|] eqn:Hg.
  - rewrite (getu4_extend _ _ t Hg).
    destruct (negb _); intros [= <- <-] _; [|reflexivity].
    rewrite drop_append; [reflexivity|exact (getu4_length _ _ Hg)].
  - change (negb (utf16.DecodeRune rr None =? utf16.replacementChar)) with false.
    cbv iota. intros [= <- <-] Hq. now rewrite (getu4_None_extend _ t Hq Hg).
Qed.

Lemma escape_extend s out rest t :
  json.escape s = json.Bytes out rest ->
  occurs (byte 0x22) rest ->
  json.escape (s +:+ t) = json.Bytes out (rest +:+ t).
Proof.
  destruct s as [|e s]; rewrite ?append_cons; cbn [json.escape]; [discriminate|].
  destruct (_ || _); [now intros [= <- <-]|].
  destruct (code e =? 0x62); [now intros [= <- <-]|].
  destruct (code e =? 0x66); [now intros [= <- <-]|].
  destruct (code e =? 0x6E); [now intros [= <- <-]|].
  destruct (code e =? 0x72); [now intros [= <- <-]|].
  destruct (code e =? 0x74); [now intros [= <- <-]|].
  destruct (code e =? 0x75); [apply unicode_escape_extend|discriminate].
Qed.

Lemma string_step_Bytes_extend s out rest t :
  json.string_step s = json.Bytes out rest ->
  occurs (byte 0x22) rest ->
  json.string_step (s +:+ t) = json.Bytes out (rest +:+ t).
Proof.
  destruct s as [|c s]; [discriminate|].
  pose proof (append_cons c s t) as Ha.
  unfold json.string_step. rewrite Ha at 1.
  destruct (code c =? 0x22); [discriminate|].
  destruct (code c =? 0x5C); [apply escape_extend|].
  destruct (code c <? 0x20); [discriminate|].
  destruct (code c <? 0x80) eqn:Hc; [now intros [= <- <-]|].
  destruct (utf8.DecodeRune (String c s)) as [rr size] eqn:Hd.
  intros [= <- <-] Hq.
  rewrite (DecodeRune_extend _ _ t _ _ Hc Hd Hq).
  rewrite drop_append; [reflexivity|exact (DecodeRune_width _ _ _ _ Hd)].
Qed.

Lemma string_step_Quote_extend s rest t :
  json.string_step s = json.Quote rest ->
  json.string_step (s +:+ t) = json.Quote (rest +:+ t).
Proof.
  destruct s as [|c s]; [discriminate|].
  rewrite append_cons. unfold json.string_step.
  destruct (code c =? 0x22); [now intros [= <-]|].
  destruct (code c =? 0x5C).
  { unfold json.escape, json.unicode_escape.
    repeat match goal with
           | |- context [match ?x with _ => _ end] => destruct x
           end; discriminate. }
  destruct (code c <? 0x20); [discriminate|].
  destruct (code c <? 0x80); [discriminate|].
  destruct (utf8.DecodeRune _); discriminate.
Qed.

Lemma string_step_suffix s out rest :
  json.string_step s = json.Bytes out rest -> exists n, rest = drop n s.
Proof.
  destruct s as [|c s]; [discriminate|]. unfold json.string_step.
  destruct (code c =? 0x22); [discriminate|].
  destruct (code c =? 0x5C).
  { destruct s as [|e s]; cbn [json.escape]; [discriminate|].
    destruct (_ || _); [intros [= _ <-]; now exists 2%nat|].
    destruct (code e =? 0x62); [intros [= _ <-]; now exists 2%nat|].
    destruct (code e =? 0x66); [intros [= _ <-]; now exists 2%nat|].
    destruct (code e =? 0x6E); [intros [= _ <-]; now exists 2%nat|].
    destruct (code e =? 0x72); [intros [= _ <-]; now exists 2%nat|].
    destruct (code e =? 0x74); [intros [= _ <-]; now exists 2%nat|].
    destruct (code e =? 0x75); [|discriminate].
    unfold json.unicode_escape.
    destruct s as [|h0 [|h1 [|h2 [|h3 s]]]]; cbn [json.hexdigits];
      repeat match goal with
      | |- context [match json.unhex ?c with _ => _ end] => destruct (json.unhex c)
      end; try discriminate.
    destruct (utf16.IsSurrogate _); [destruct (negb _)|]; intros [= _ <-].
    - now exists 12%nat.
    - now exists 6%nat.
    - now exists 6%nat. }
  destruct (code c <? 0x20); [discriminate|].
  destruct (code c <? 0x80); [intros [= _ <-]; now exists 1%nat|].
  destruct (utf8.DecodeRune _) as [rr size]. intros [= _ <-]. now exists size.
Qed.

Lemma string_body_quote fuel : forall s x r,
  json.string_body fuel s = json.Scanned x r -> occurs (byte 0x22) s.
Proof.
  induction fuel as [|fuel IH]; intros s x r; [discriminate|].
  cbn [json.string_body].
  destruct (json.string_step s) as [out rest|rest| |] eqn:Hs; try discriminate.
  - destruct (json.string_body fuel rest) as [x' r'| | |] eqn:Hb; try discriminate.
    intros _. apply IH in Hb.
    destruct (string_step_suffix _ _ _ Hs) as [n ->].
    exact (occurs_drop _ _ _ Hb).
  - intros _. destruct s as [|c s]; [discriminate|].
    unfold json.string_step in Hs.
    destruct (code c =? 0x22) eqn:Hc.
    + apply N.eqb_eq in Hc. left.
      rewrite <- (byte_code c), Hc. reflexivity.
    + exfalso. revert Hs.
      destruct (code c =? 0x5C).
      { unfold json.escape, json.unicode_escape.
        repeat match goal with
               | |- context [match ?x with _ => _ end] => destruct x
               end; discriminate. }
      destruct (code c <? 0x20); [discriminate|].
      destruct (code c <? 0x80); [discriminate|].
      destruct (utf8.DecodeRune _); discriminate.
Qed.

Lemma string_body_extend fuel : forall s x r fuel' t,
  json.string_body fuel s = json.Scanned x r -> (fuel <= fuel')%nat ->
  json.string_body fuel' (s +:+ t) = json.Scanned x (r +:+ t).
Proof.
  induction fuel as [|fuel IH]; intros s x r fuel' t; [discriminate|].
  intros H Hf. destruct fuel' as [|fuel']; [lia|].
  cbn [json.string_body] in H |- *.
  destruct (json.string_step s) as [out rest|rest| |] eqn:Hs; try discriminate.
  - destruct (json.string_body fuel rest) as [x' r'| | |] eqn:Hb; try discriminate.
    cbn [json.and_then] in H. injection H as <- <-.
    rewrite (string_step_Bytes_extend _ _ _ t Hs (string_body_quote _ _ _ _ Hb)).
    rewrite (IH _ _ _ fuel' t Hb); [reflexivity|lia].
  - injection H as <- <-.
    now rewrite (string_step_Quote_extend _ _ t Hs).
Qed.

Lemma value_extend fuel :
  (forall depth s j r fuel' t,
     json.value fuel depth s = json.Scanned j r -> delimited j r ->
     (fuel <= fuel')%nat ->
     json.value fuel' depth (s +:+ t) = json.Scanned j (r +:+ t))
  /\ (forall depth s ms r fuel' t,
        json.members fuel depth s = json.Scanned ms r -> (fuel <= fuel')%nat ->
        json.members fuel' depth (s +:+ t) = json.Scanned ms (r +:+ t))
  /\ (forall depth s vs r fuel' t,
        json.elements fuel depth s = json.Scanned vs r -> (fuel <= fuel')%nat ->
        json.elements fuel' depth (s +:+ t) = json.Scanned vs (r +:+ t)).
Proof.
  induction fuel as [|fuel (IHv & IHm & IHe)];
    [split; [|split]; intros; discriminate|].
  split; [|split].
  - intros depth s j r fuel' t H Hd Hf.
    destruct fuel' as [|fuel']; [lia|]. apply le_S_n in Hf.
    cbn [json.value] in H |- *.
    destruct (json.skip_space s) as [|c s1] eqn:Hs; [discriminate|].
    rewrite (skip_space_extend _ _ _ t Hs).
    destruct (code c =? 0x7B).
    { destruct (depth <? json.maxNestingDepth); [|discriminate].
      destruct (json.skip_space s1) as [|c1 s2] eqn:Hs1; [discriminate|].
      rewrite (skip_space_extend _ _ _ t Hs1).
      destruct (code c1 =? 0x7D); [now injection H as <- <-|].
      destruct (json.members fuel (depth + 1) s1) as [ms r'| | |] eqn:Hm;
        try discriminate.
      cbn [json.and_then] in H. injection H as <- <-.
      now rewrite (IHm _ _ _ _ fuel' t Hm Hf). }
    destruct (code c =? 0x5B).
    { destruct (depth <? json.maxNestingDepth); [|discriminate].
      destruct (json.skip_space s1) as [|c1 s2] eqn:Hs1; [discriminate|].
      rewrite (skip_space_extend _ _ _ t Hs1).
      destruct (code c1 =? 0x5D); [now injection H as <- <-|].
      destruct (json.elements fuel (depth + 1) s1) as [vs r'| | |] eqn:He;
        try discriminate.
      cbn [json.and_then] in H. injection H as <- <-.
      now rewrite (IHe _ _ _ _ fuel' t He Hf). }
    destruct (code c =? 0x22).
    { destruct (json.string_body fuel s1) as [x r'| | |] eqn:Hb; try discriminate.
      cbn [json.and_then] in H. injection H as <- <-.
      now rewrite (string_body_extend _ _ _ _ fuel' t Hb Hf). }
    destruct (code c =? 0x74).
    { destruct (json.expect "rue" s1) as [[] r'| | |] eqn:He; try discriminate.
      cbn [json.and_then] in H. injection H as <- <-.
      now rewrite (expect_extend _ _ _ t He). }
    destruct (code c =? 0x66).
    { destruct (json.expect "alse" s1) as [[] r'| | |] eqn:He; try discriminate.
      cbn [json.and_then] in H. injection H as <- <-.
      now rewrite (expect_extend _ _ _ t He). }
    destruct (code c =? 0x6E).
    { destruct (json.expect "ull" s1) as [[] r'| | |] eqn:He; try discriminate.
      cbn [json.and_then] in H. injection H as <- <-.
      now rewrite (expect_extend _ _ _ t He). }
    destruct (_ || _); [|discriminate].
    destruct (json.number (String c s1)) as [[] r'| | |] eqn:Hn; try discriminate.
    cbn [json.and_then] in H. injection H as <- <-.
    rewrite <- append_cons. rewrite (number_extend _ _ t Hn Hd).
    cbn [json.and_then]. rewrite consumed_extend; [reflexivity|].
    apply number_length in Hn. lia.
  - intros depth s ms r fuel' t H Hf.
    destruct fuel' as [|fuel']; [lia|]. apply le_S_n in Hf.
    cbn [json.members] in H |- *.
    destruct (json.skip_space s) as [|c s1] eqn:Hs; [discriminate|].
    rewrite (skip_space_extend _ _ _ t Hs).
    destruct (code c =? 0x22); [|discriminate].
    destruct (json.string_body fuel s1) as [key s2| | |] eqn:Hb; try discriminate.
    rewrite (string_body_extend _ _ _ _ fuel' t Hb Hf).
    cbn [json.and_then] in H |- *.
    destruct (json.skip_space s2) as [|c2 s3] eqn:Hs2; [discriminate|].
    rewrite (skip_space_extend _ _ _ t Hs2).
    destruct (code c2 =? 0x3A); [|discriminate].
    destruct (json.value fuel depth s3) as [v s4| | |] eqn:Hv; try discriminate.
    cbn [json.and_then] in H.
    destruct (json.skip_space s4) as [|c4 s5] eqn:Hs4; [discriminate|].
    assert (delimited v s4) as Hd.
    { destruct v; try exact I. intros ->. discriminate Hs4. }
    rewrite (IHv _ _ _ _ fuel' t Hv Hd Hf). cbn [json.and_then].
    rewrite (skip_space_extend _ _ _ t Hs4).
    destruct (code c4 =? 0x2C).
    { destruct (json.members fuel depth s5) as [ms' r'| | |] eqn:Hm;
        try discriminate.
      cbn [json.and_then] in H. injection H as <- <-.
      now rewrite (IHm _ _ _ _ fuel' t Hm Hf). }
    destruct (code c4 =? 0x7D); [|discriminate].
    now injection H as <- <-.
  - intros depth s vs r fuel' t H Hf.
    destruct fuel' as [|fuel']; [lia|]. apply le_S_n in Hf.
    cbn [json.elements] in H |- *.
    destruct (json.value fuel depth s) as [v s1| | |] eqn:Hv; try discriminate.
    cbn [json.and_then] in H.
    destruct (json.skip_space s1) as [|c s2] eqn:Hs1; [discriminate|].
    assert (delimited v s1) as Hd.
    { destruct v; try exact I. intros ->. discriminate Hs1. }
    rewrite (IHv _ _ _ _ fuel' t Hv Hd Hf). cbn [json.and_then].
    rewrite (skip_space_extend _ _ _ t Hs1).
    destruct (code c =? 0x2C).
    { destruct (json.elements fuel depth s2) as [vs' r'| | |] eqn:He;
        try discriminate.
      cbn [json.and_then] in H. injection H as <- <-.
      now rewrite (IHe _ _ _ _ fuel' t He Hf). }
    destruct (code c =? 0x5D); [|discriminate].
    now injection H as <- <-.
Qed.

Lemma first_value_extend d j rest tail :
  json.first_value d = json.Scanned j rest -> delimited j rest ->
  json.first_value (d +:+ tail) = json.Scanned j (rest +:+ tail).
Proof.
  unfold json.first_value. intros H Hd.
  apply (proj1 (value_extend _) _ _ _ _ _ tail H Hd).
  rewrite length_append. lia.
Qed.

Lemma Decode_extend d j rest tail f f' v :
  json.first_value d = json.Scanned j rest -> self_delimited j = true ->
  Decode {| data := d +:+ tail; fault := f' |} v
  = Decode {| data := d; fault := f |} v.
Proof.
  intros H Hs. unfold Decode. cbn [data fault].
  rewrite (first_value_extend _ _ _ tail H), H.
  - rewrite Hs. destruct (rest +:+ tail), rest; reflexivity.
  - destruct j; try discriminate; exact I.
Qed.

Section Trailing.

Variable url_Parse : string -> option error.

(** X14. The decoder stops at the end of the first value: when the body
    begins with a complete object or array, a response that carries the
    same bytes followed by anything else gives the same result, be it a
    token or the error. *)
Theorem Get_ignores_trailing_bytes gh gh' serverURL serverURL' w w'
    req req' resp resp' j rest tail :
  exchanged w (snd (Get url_Parse gh serverURL w)) req (inl resp) ->
  StatusCode resp = StatusOK ->
  json.first_value (data (Body resp)) = json.Scanned j rest ->
  self_delimited j = true ->
  exchanged w' (snd (Get url_Parse gh' serverURL' w')) req' (inl resp') ->
  StatusCode resp' = StatusOK ->
  data (Body resp') = data (Body resp) +:+ tail ->
  fst (Get url_Parse gh' serverURL' w') = fst (Get url_Parse gh serverURL w).
Proof.
  intros H Hs E D H' Hs' Hd.
  rewrite (Get_200 url_Parse _ _ _ _ _ H Hs), (Get_200 url_Parse _ _ _ _ _ H' Hs').
  destruct (Body resp) as [d f], (Body resp') as [d' f'].
  cbn [data] in E, Hd. subst d'.
  now rewrite (Decode_extend d j rest tail f f' _ E D).
Qed.

End Trailing.

(** ** Concrete runs of the properties above *)

(** Witness of X1: the request the mock server of the tests receives. *)
Lemma Get_request_headers_witness :
  Method (token_request Scenario.world_token) = "GET"
  /\ Header (token_request Scenario.world_token) !! "Authorization"
     = Some ["Bearer " +:+ getenv Scenario.world_token
                             "ACTIONS_ID_TOKEN_REQUEST_TOKEN"]
  /\ Header (token_request Scenario.world_token) !! "User-Agent"
     = Some ["Docker-Credential-Helper-GitHubActionsOIDC"]
  /\ forall key, key <> "Authorization" -> key <> "User-Agent" ->
                 Header (token_request Scenario.world_token) !! key = None.
Proof.
  apply (Get_request_headers Scenario.url_Parse Scenario.helper
           Scenario.registry Scenario.world_token
           (token_request Scenario.world_token)
           (Scenario.reply 200 (Text.token_response Scenario.token))).
  exists [BodyRead (Body (Scenario.response 200
                            (Text.token_response Scenario.token)));
          BodyClose (Body (Scenario.response 200
                             (Text.token_response Scenario.token)))].
  vm_compute. reflexivity.
Defined.

(** Witness of X3: the endpoint answers 401, and the body is closed
    without having been read. *)
Lemma Get_closes_body_witness :
  exists mid,
    trace (snd (Get Scenario.url_Parse Scenario.helper Scenario.registry
                  Scenario.world_unauthorized))
    = trace Scenario.world_unauthorized
      ++ RoundTrip (token_request Scenario.world_unauthorized)
           (inl (Scenario.response 401 "Unauthorized"))
         :: mid ++ [BodyClose (Body (Scenario.response 401 "Unauthorized"))]
    /\ (mid = []
        \/ mid = [BodyRead (Body (Scenario.response 401 "Unauthorized"))])
    /\ (mid = []
        <-> StatusCode (Scenario.response 401 "Unauthorized") <> StatusOK).
Proof.
  apply (Get_closes_body Scenario.url_Parse Scenario.helper Scenario.registry
           Scenario.world_unauthorized).
  exists [BodyClose (Body (Scenario.response 401 "Unauthorized"))].
  vm_compute. reflexivity.
Defined.

(** Witness of X4: an endpoint URL that ends in a line feed. *)
Lemma Get_request_construction_failure_witness :
  fst (Get Scenario.url_Parse Scenario.helper Scenario.registry
         Cases.world_bad_URL)
  = ("", "", Some errCredentialsNotFound)
  /\ trace (snd (Get Scenario.url_Parse Scenario.helper Scenario.registry
                   Cases.world_bad_URL))
     = trace Cases.world_bad_URL.
Proof.
  apply (Get_request_construction_failure Scenario.url_Parse Scenario.helper
           Scenario.registry Cases.world_bad_URL
           (url_Error "net/url: invalid control character in URL")).
  vm_compute. reflexivity.
Defined.

(** Witness of X5: nothing listens at the endpoint. *)
Lemma Get_network_failure_witness :
  fst (Get Scenario.url_Parse Scenario.helper Scenario.registry
         Cases.world_unreachable)
  = ("", "", Some errCredentialsNotFound)
  /\ trace (snd (Get Scenario.url_Parse Scenario.helper Scenario.registry
                   Cases.world_unreachable))
     = trace Cases.world_unreachable
       ++ [RoundTrip (token_request Cases.world_unreachable)
             (inr Cases.connection_refused)].
Proof.
  apply (Get_network_failure Scenario.url_Parse Scenario.helper
           Scenario.registry Cases.world_unreachable).
  exists []. vm_compute. reflexivity.
Defined.

(** Witness of X6: the body [invalid json] of the tests. *)
Lemma Get_malformed_body_witness :
  fst (Get Scenario.url_Parse Scenario.helper Scenario.registry
         Cases.world_not_json)
  = ("", "", Some errCredentialsNotFound).
Proof.
  apply (Get_malformed_body Scenario.url_Parse Scenario.helper
           Scenario.registry Cases.world_not_json
           (token_request Cases.world_not_json)
           (Scenario.response 200 "invalid json")).
  - exists [BodyRead (Body (Scenario.response 200 "invalid json"));
            BodyClose (Body (Scenario.response 200 "invalid json"))].
    vm_compute. reflexivity.
  - reflexivity.
  - intros j rest. vm_compute. discriminate.
Defined.

(** Witness of X7: of two members named [value], the later one wins. *)
Lemma Get_last_value_wins_witness :
  fst (Get Scenario.url_Parse Scenario.helper Scenario.registry
         Cases.world_two_values)
  = ("github_actions", "second", None).
Proof.
  apply (Get_last_value_wins Scenario.url_Parse Scenario.helper
           Scenario.registry Cases.world_two_values
           (token_request Cases.world_two_values)
           (Scenario.response 200 Cases.two_values)
           [("value", json.Str "first"); ("VALUE", json.Str "second")] "").
  - exists [BodyRead (Body (Scenario.response 200 Cases.two_values));
            BodyClose (Body (Scenario.response 200 Cases.two_values))].
    vm_compute. reflexivity.
  - reflexivity.
  - vm_compute. reflexivity.
  - reflexivity.
Defined.


(** Witness of X9: the three lines in the log of the tests'
    credentials. *)
Lemma no_op_log_text_witness :
  disk (snd (Add Scenario.helper Scenario.creds Scenario.world_token)) !! 3%nat
  = Some ("" +:+ stamped Scenario.timestamp 0
                   ["Adding credentials for server: "
                      +:+ ServerURL Scenario.creds])
  /\ disk (snd (Delete Scenario.helper Scenario.registry
                  Scenario.world_token)) !! 3%nat
     = Some ("" +:+ stamped Scenario.timestamp 0
                      ["Deleting credentials for server: "
                         +:+ Scenario.registry])
  /\ disk (snd (List Scenario.helper Scenario.world_token)) !! 3%nat
     = Some ("" +:+ stamped Scenario.timestamp 0 ["Listing credentials"]).
Proof.
  apply (no_op_log_text Scenario.helper Scenario.creds Scenario.registry
           Scenario.world_token 3%nat "").
  split; [reflexivity|]. split; [vm_compute; reflexivity|].
  intros n. reflexivity.
Defined.

(** Witness of X14: the token response followed by more bytes. *)
Lemma Get_ignores_trailing_bytes_witness :
  fst (Get Scenario.url_Parse Scenario.helper_without_log Scenario.registry
         Cases.world_trailing)
  = fst (Get Scenario.url_Parse Scenario.helper Scenario.registry
           Scenario.world_token).
Proof.
  apply (Get_ignores_trailing_bytes Scenario.url_Parse
           Scenario.helper Scenario.helper_without_log
           Scenario.registry Scenario.registry
           Scenario.world_token Cases.world_trailing
           (token_request Scenario.world_token)
           (token_request Cases.world_trailing)
           (Scenario.response 200 (Text.token_response Scenario.token))
           (Scenario.response 200
              (Text.token_response Scenario.token +:+ Cases.trailing))
           (json.Object [("value", json.Str Scenario.token)]) ""
           Cases.trailing).
  - exists [BodyRead (Body (Scenario.response 200
                              (Text.token_response Scenario.token)));
            BodyClose (Body (Scenario.response 200
                               (Text.token_response Scenario.token)))].
    vm_compute. reflexivity.
  - reflexivity.
  - vm_compute. reflexivity.
  - reflexivity.
  - exists [BodyRead (Body (Scenario.response 200
                              (Text.token_response Scenario.token
                                 +:+ Cases.trailing)));
            BodyClose (Body (Scenario.response 200
                               (Text.token_response Scenario.token
                                  +:+ Cases.trailing)))].
    vm_compute. reflexivity.
  - reflexivity.
  - reflexivity.
Defined.
